(** * Cramerton Development Tracker: the dataset store and the project API

    A shallow embedding of [backend/main.py]: the CSV dataset kept in one
    blob ([load_data], [save_data]), the project handlers built on it
    ([update_project], [add_project], [delete_project],
    [get_project_details]) and the token endpoint
    ([login_for_access_token], [create_access_token]).

    Conventions.
    - A Python [str] is a [string], a character an [ascii]: the code
      points below 256.  Of all characters the program and the [csv]
      module only tell the comma, the double quote, CR and LF apart;
      [repr] also tells the printable ones from the others.  The blob
      holds UTF-8 text and is modelled by the text itself.
    - A Python [dict] is an association list in insertion order with
      unique keys, updated through [dict_set].
    - A handler is a computation over the blob store that returns or
      raises; an [HTTPException] is modelled by its status code, without
      its [detail] text.
    - The storage service answers every call; the one storage failure
      modelled is a blob that does not exist.
    - The route decorators (rate limit) and the [get_current_user]
      dependency run before a handler body; the handlers below are the
      bodies, that is, what an authenticated request within its rate
      limit gets. *)

From Stdlib Require Import Ascii String ZArith Lia.
From stdpp Require Import base list strings.

Local Open Scope string_scope.
Local Open Scope list_scope.
Local Open Scope nat_scope.

#[local] Arguments String.append !_ _ / : simpl nomatch.

(** ** Python values *)

(** Any object other than [None], a [str] or a list of [str]: a number, a
    boolean, a nested array or an object of a JSON body.  The program only
    ever applies [str()] and truth testing to such a value. *)
Record pyobj := PyObj { obj_str : string; obj_bool : bool }.

Inductive value :=
| VNone
| VStr (s : string)
| VList (l : list string)
| VOther (o : pyobj).

(** Dictionary keys: a [str], or [None] (the [restkey] of [csv.DictReader]). *)
Inductive key :=
| KNone
| KStr (s : string).

#[global] Instance pyobj_eq_dec : EqDecision pyobj.
Proof. solve_decision. Defined.
#[global] Instance value_eq_dec : EqDecision value.
Proof. solve_decision. Defined.
#[global] Instance key_eq_dec : EqDecision key.
Proof. solve_decision. Defined.

(** [bool(v)]. *)
Definition truthy (v : value) : bool :=
  match v with
  | VNone => false
  | VStr s => negb (String.eqb s EmptyString)
  | VList l => negb (Nat.eqb (length l) 0)
  | VOther o => obj_bool o
  end.

(** [v == s] for a [str] [s]. *)
Definition eq_str (v : value) (s : string) : bool :=
  match v with
  | VStr s' => String.eqb s' s
  | _ => false
  end.

Definition LF : ascii := "010"%char.
Definition CR : ascii := "013"%char.
Definition TAB : ascii := "009"%char.
Definition COMMA : ascii := ","%char.
Definition DQUOTE : ascii := "034"%char.
Definition SQUOTE : ascii := "039"%char.
Definition BACKSLASH : ascii := "092"%char.

Fixpoint contains (c : ascii) (s : string) : bool :=
  match s with
  | EmptyString => false
  | String a rest => Ascii.eqb a c || contains c rest
  end.

Definition hex_digit (n : nat) : ascii :=
  if n <? 10 then ascii_of_nat (48 + n) else ascii_of_nat (87 + n).

(** A code point below 256 that [str.isprintable] refuses: the control
    characters 0 to 31 and 127 to 159, the no-break space 160 and the
    soft hyphen 173. *)
Definition unprintable (n : nat) : bool :=
  (n <? 32) || ((126 <? n) && (n <? 161)) || (n =? 173).

(** [repr(s)] of a [str]: in single quotes, unless [s] holds a single
    quote and no double quote; the quote in use and the backslash are
    escaped with a backslash, tab, LF and CR are written with their
    letter, every other character that is not printable as a backslash,
    the letter x and two hexadecimal digits; the printable characters
    are copied. *)
Fixpoint repr_body (q : ascii) (s : string) : string :=
  match s with
  | EmptyString => EmptyString
  | String c rest =>
      let n := nat_of_ascii c in
      (if Ascii.eqb c q || Ascii.eqb c BACKSLASH then String BACKSLASH (String c EmptyString)
       else if Ascii.eqb c TAB then "\t"
       else if Ascii.eqb c LF then "\n"
       else if Ascii.eqb c CR then "\r"
       else if unprintable n then
         String BACKSLASH (String "x" (String (hex_digit (n / 16)) (String (hex_digit (n mod 16)) EmptyString)))
       else String c EmptyString) +:+ repr_body q rest
  end.

Definition repr_str (s : string) : string :=
  let q := if contains SQUOTE s && negb (contains DQUOTE s) then DQUOTE else SQUOTE in
  String q (repr_body q s +:+ String q EmptyString).

Fixpoint join (sep : string) (l : list string) : string :=
  match l with
  | [] => EmptyString
  | [x] => x
  | x :: rest => x +:+ sep +:+ join sep rest
  end.

(** [str(v)]. *)
Definition py_str (v : value) : string :=
  match v with
  | VNone => "None"
  | VStr s => s
  | VList l => "[" +:+ join ", " (map repr_str l) +:+ "]"
  | VOther o => obj_str o
  end.

(** ** Python dictionaries *)

Section Dict.
Context {K V : Type} `{EqDecision K}.

(** [d.get(k)]; [None] when [k not in d]. *)
Fixpoint dict_get (d : list (K * V)) (k : K) : option V :=
  match d with
  | [] => None
  | (k', v) :: rest => if decide (k' = k) then Some v else dict_get rest k
  end.

(** [k in d]. *)
Definition dict_mem (k : K) (d : list (K * V)) : bool :=
  match dict_get d k with Some _ => true | None => false end.

(** [d[k] = v]: overwrite in place, or append a new entry. *)
Fixpoint dict_set (d : list (K * V)) (k : K) (v : V) : list (K * V) :=
  match d with
  | [] => [(k, v)]
  | (k', v') :: rest =>
      if decide (k' = k) then (k, v) :: rest else (k', v') :: dict_set rest k v
  end.

(** [d.keys()], in insertion order. *)
Definition dict_keys (d : list (K * V)) : list K := map fst d.

(** [d.update(items)]; [dict(items)] is [dict_update [] items]. *)
Definition dict_update (d : list (K * V)) (items : list (K * V)) : list (K * V) :=
  fold_left (fun acc kv => dict_set acc kv.1 kv.2) items d.
End Dict.

(** A project record, a row of the dataset. *)
Definition dict := list (key * value).

(** ** Exceptions and results *)

Inductive exn :=
| HTTPException (status_code : nat)
| ValueError
| KeyError
| CsvError
| BlobError.

Inductive outcome (A : Type) :=
| Ok (a : A)
| Raise (e : exn).
Arguments Ok {A} a.
Arguments Raise {A} e.

#[global] Instance exn_eq_dec : EqDecision exn.
Proof. solve_decision. Defined.

(** ** The [csv] module, excel dialect

    [main.py] uses [csv.DictReader] and [csv.DictWriter] with their
    defaults: comma delimiter, double quote as quote character, doubled
    inside a quoted field, [QUOTE_MINIMAL], line terminator CR LF, not
    strict, no escape character, [restkey = None] and [restval = None]
    for the reader, [restval = ''] and [extrasaction = 'raise'] for the
    writer.  The parser below is the state machine of the reader of
    CPython (3.11 and later: the end-of-line mark is not a character, so
    a NUL in a line is a character like any other), with the states that
    need an escape character left out. *)
Module Csv.

Inductive ParserState :=
| START_RECORD
| START_FIELD
| IN_FIELD
| IN_QUOTED_FIELD
| QUOTE_IN_QUOTED_FIELD
| EAT_CRNL.

#[global] Instance ParserState_eq_dec : EqDecision ParserState.
Proof. solve_decision. Defined.

(** The part of the reader object the parser works on: the state, the
    fields of the record read so far and the field being read. *)
Record ReaderObj := Reader {
  state : ParserState;
  fields : list string;
  field : string
}.

(** What the parser is fed: a character of a line, or the end-of-line
    mark that follows every line. *)
Inductive pchar :=
| Chr (c : ascii)
| EOL.

(** [csv.field_size_limit()]. *)
Definition field_limit : N := 131072.

Definition is_newline (c : ascii) : bool := Ascii.eqb c LF || Ascii.eqb c CR.

Definition parse_reset : ReaderObj := Reader START_RECORD [] EmptyString.

Definition set_state (self : ReaderObj) (st : ParserState) : ReaderObj :=
  Reader st (fields self) (field self).

Definition parse_save_field (self : ReaderObj) : ReaderObj :=
  Reader (state self) (fields self ++ [field self]) EmptyString.

(** Fails when the field is already [field_limit] characters long. *)
Definition parse_add_char (self : ReaderObj) (c : ascii) : option ReaderObj :=
  if (N.of_nat (String.length (field self)) <? field_limit)%N
  then Some (Reader (state self) (fields self) (field self +:+ String c EmptyString))
  else None.

(** The [START_FIELD] case; [START_RECORD] falls through to it. *)
Definition start_field (self : ReaderObj) (c : pchar) : option ReaderObj :=
  match c with
  | EOL => Some (set_state (parse_save_field self) START_RECORD)
  | Chr a =>
      if is_newline a then Some (set_state (parse_save_field self) EAT_CRNL)
      else if Ascii.eqb a DQUOTE then Some (set_state self IN_QUOTED_FIELD)
      else if Ascii.eqb a COMMA then Some (parse_save_field self)
      else option_map (fun s => set_state s IN_FIELD) (parse_add_char self a)
  end.

Definition parse_process_char (self : ReaderObj) (c : pchar) : option ReaderObj :=
  match state self with
  | START_RECORD =>
      match c with
      | EOL => Some self
      | Chr a =>
          if is_newline a then Some (set_state self EAT_CRNL)
          else start_field (set_state self START_FIELD) c
      end
  | START_FIELD => start_field self c
  | IN_FIELD =>
      match c with
      | EOL => Some (set_state (parse_save_field self) START_RECORD)
      | Chr a =>
          if is_newline a then Some (set_state (parse_save_field self) EAT_CRNL)
          else if Ascii.eqb a COMMA then Some (set_state (parse_save_field self) START_FIELD)
          else parse_add_char self a
      end
  | IN_QUOTED_FIELD =>
      match c with
      | EOL => Some self
      | Chr a =>
          if Ascii.eqb a DQUOTE then Some (set_state self QUOTE_IN_QUOTED_FIELD)
          else parse_add_char self a
      end
  | QUOTE_IN_QUOTED_FIELD =>
      match c with
      | EOL => Some (set_state (parse_save_field self) START_RECORD)
      | Chr a =>
          if Ascii.eqb a DQUOTE
          then option_map (fun s => set_state s IN_QUOTED_FIELD) (parse_add_char self a)
          else if Ascii.eqb a COMMA then Some (set_state (parse_save_field self) START_FIELD)
          else if is_newline a then Some (set_state (parse_save_field self) EAT_CRNL)
          else option_map (fun s => set_state s IN_FIELD) (parse_add_char self a)
      end
  | EAT_CRNL =>
      match c with
      | EOL => Some (set_state self START_RECORD)
      | Chr a => if is_newline a then Some self else None
      end
  end.

(** The characters of one line, in order. *)
Fixpoint process_line (self : ReaderObj) (line : string) : option ReaderObj :=
  match line with
  | EmptyString => Some self
  | String c rest =>
      match parse_process_char self (Chr c) with
      | Some self' => process_line self' rest
      | None => None
      end
  end.

(** Iterating [io.StringIO(text)]: the lines of [text], each with its
    LF, the last one possibly without. *)
Fixpoint split_lines (text : string) : list string :=
  match text with
  | EmptyString => []
  | String c rest =>
      if Ascii.eqb c LF then String c EmptyString :: split_lines rest
      else match split_lines rest with
           | [] => [String c EmptyString]
           | line :: lines => String c line :: lines
           end
  end.

(** At the end of the input inside a record: the record read so far is
    returned when a field is pending. *)
Definition at_end_of_input (self : ReaderObj) : list (list string) :=
  if negb (Nat.eqb (String.length (field self)) 0)
     || bool_decide (state self = IN_QUOTED_FIELD)
  then [fields (parse_save_field self)]
  else [].

(** [list(csv.reader(lines))]: [Reader_iternext] until the lines are
    used up.  [self] is the parser between two lines; a record is
    complete when the parser is back in [START_RECORD] after the
    end-of-line mark. [None] is [csv.Error]. *)
Fixpoint reader_from (self : ReaderObj) (lines : list string)
  : option (list (list string)) :=
  match lines with
  | [] => Some (at_end_of_input self)
  | line :: rest =>
      match process_line self line with
      | None => None
      | Some s1 =>
          match parse_process_char s1 EOL with
          | None => None
          | Some s2 =>
              if decide (state s2 = START_RECORD)
              then option_map (cons (fields s2)) (reader_from parse_reset rest)
              else reader_from s2 rest
          end
      end
  end.

Definition reader (text : string) : option (list (list string)) :=
  reader_from parse_reset (split_lines text).

(** The same reader run over the text character by character: the
    end-of-line mark is fed after every LF and after the last character
    of a text that does not end in LF ([midline] tells that the current
    line has characters).  It is shown below to agree with [reader]; the
    proofs about the writer go through it. *)
Fixpoint reader_text (self : ReaderObj) (midline : bool) (text : string)
  : option (list (list string)) :=
  match text with
  | EmptyString =>
      if midline then
        match parse_process_char self EOL with
        | None => None
        | Some s2 =>
            if decide (state s2 = START_RECORD) then Some [fields s2]
            else Some (at_end_of_input s2)
        end
      else Some (at_end_of_input self)
  | String c rest =>
      match parse_process_char self (Chr c) with
      | None => None
      | Some s1 =>
          if Ascii.eqb c LF then
            match parse_process_char s1 EOL with
            | None => None
            | Some s2 =>
                if decide (state s2 = START_RECORD)
                then option_map (cons (fields s2)) (reader_text parse_reset false rest)
                else reader_text s2 false rest
            end
          else reader_text s1 true rest
      end
  end.

(** A field the reader can hold. *)
Definition within_limit (s : string) : Prop :=
  (N.of_nat (String.length s) <= field_limit)%N.

(** *** Writer *)

Definition must_quote (c : ascii) : bool :=
  Ascii.eqb c COMMA || Ascii.eqb c DQUOTE || Ascii.eqb c CR || Ascii.eqb c LF.

Fixpoint needs_quotes (s : string) : bool :=
  match s with
  | EmptyString => false
  | String c rest => must_quote c || needs_quotes rest
  end.

(** The characters of a field, every quote doubled. *)
Fixpoint join_append_data (s : string) : string :=
  match s with
  | EmptyString => EmptyString
  | String c rest =>
      if Ascii.eqb c DQUOTE then String DQUOTE (String DQUOTE (join_append_data rest))
      else String c (join_append_data rest)
  end.

Definition join_append (s : string) (quoted : bool) : string :=
  if quoted || needs_quotes s
  then String DQUOTE (join_append_data s +:+ String DQUOTE EmptyString)
  else s.

Fixpoint join_fields (fs : list string) : string :=
  match fs with
  | [] => EmptyString
  | [f] => join_append f false
  | f :: rest => join_append f false +:+ String COMMA (join_fields rest)
  end.

(** [writer.writerow(fs)]: a record that is one empty field is written
    as a pair of quotes. *)
Definition writerow (fs : list string) : string :=
  let line := join_fields fs in
  (if (0 <? length fs) && Nat.eqb (String.length line) 0
   then join_append EmptyString true else line) +:+ String CR (String LF EmptyString).

Fixpoint writerows (rows : list (list string)) : string :=
  match rows with
  | [] => EmptyString
  | r :: rest => writerow r +:+ writerows rest
  end.

(** How the writer turns a cell into text. *)
Definition cell_text (v : value) : string :=
  match v with
  | VNone => EmptyString
  | VStr s => s
  | _ => py_str v
  end.

(** *** DictReader *)

(** One data row under the header [fieldnames]. *)
Definition DictReader_row (fieldnames row : list string) : dict :=
  let d := dict_update [] (zip (map KStr fieldnames) (map VStr row)) in
  let lf := length fieldnames in
  let lr := length row in
  if lf <? lr then dict_set d KNone (VList (drop lf row))
  else if lr <? lf then
    dict_update d (map (fun k => (KStr k, VNone)) (drop lr fieldnames))
  else d.

Definition is_blank (row : list string) : bool :=
  match row with [] => true | _ => false end.

(** [list(csv.DictReader(...))] from the rows of the plain reader: the
    first row is the header, blank data rows are skipped. *)
Definition DictReader (rows : list (list string)) : list dict :=
  match rows with
  | [] => []
  | fieldnames :: data =>
      map (DictReader_row fieldnames) (List.filter (fun r => negb (is_blank r)) data)
  end.

(** *** DictWriter *)

Definition key_value (k : key) : value :=
  match k with KNone => VNone | KStr s => VStr s end.

(** [_dict_to_list]: [ValueError] when the row has a key outside
    [fieldnames]; otherwise the cells in header order, [''] for a
    missing one. *)
Definition dict_to_list (fieldnames : list key) (rowdict : dict) : outcome (list value) :=
  let wrong_fields := List.filter (fun k => negb (bool_decide (k ∈ fieldnames))) (dict_keys rowdict) in
  match wrong_fields with
  | [] => Ok (map (fun k => default (VStr EmptyString) (dict_get rowdict k)) fieldnames)
  | _ => Raise ValueError
  end.

(** [writer.writerows(rowdicts)] appended to [output]. *)
Fixpoint DictWriter_writerows (fieldnames : list key) (rowdicts : list dict) (output : string)
  : outcome string :=
  match rowdicts with
  | [] => Ok output
  | d :: rest =>
      match dict_to_list fieldnames d with
      | Raise e => Raise e
      | Ok cells => DictWriter_writerows fieldnames rest (output +:+ writerow (map cell_text cells))
      end
  end.

(** [writer.writeheader()]. *)
Definition DictWriter_writeheader (fieldnames : list key) (output : string) : string :=
  output +:+ writerow (map cell_text (map key_value fieldnames)).

End Csv.

(** ** The blob store and the handler monad *)

(** The content of the blob [Development_Status.csv]; [None] when the
    blob does not exist. *)
Definition store := option string.

(** A computation that reads and writes the store and returns or raises. *)
Definition M (A : Type) : Type := store -> outcome A * store.

Definition ret {A} (a : A) : M A := fun st => (Ok a, st).

Definition raise {A} (e : exn) : M A := fun st => (Raise e, st).

Definition bind {A B} (m : M A) (k : A -> M B) : M B :=
  fun st =>
    match m st with
    | (Ok a, st') => k a st'
    | (Raise e, st') => (Raise e, st')
    end.

(** [try: m  except Exception as e: handler(e)]. *)
Definition try_except {A} (m : M A) (handler : exn -> M A) : M A :=
  fun st =>
    match m st with
    | (Ok a, st') => (Ok a, st')
    | (Raise e, st') => handler e st'
    end.

(** A pure step that may raise. *)
Definition lift {A} (o : outcome A) : M A := fun st => (o, st).

Notation "'do' x <- m ; k" := (bind m (fun x => k))
  (at level 10, x name, m at level 100, k at level 200).
Notation "'do_' m ; k" := (bind m (fun _ => k))
  (at level 10, m at level 100, k at level 200).

(** [blob_client.download_blob().readall().decode('utf-8')]. *)
Definition download_blob : M string :=
  fun st => match st with
            | Some text => (Ok text, st)
            | None => (Raise BlobError, st)
            end.

(** [blob_client.upload_blob(data, overwrite=True)]. *)
Definition upload_blob (text : string) : M unit :=
  fun _ => (Ok tt, Some text).

(** ** [load_data] and [save_data] *)

(** What the clean-up loop of [load_data] leaves in place of a value. *)
Definition clean_value (v : value) : value := if truthy v then v else VNone.

Definition clean_item (kv : key * value) : key * value := (kv.1, clean_value kv.2).

(** The clean-up loop of [load_data] over one record:
    [for key, value in project.items(): if not value: project[key] = None]. *)
Definition clean_empty_values (project : dict) : dict :=
  fold_left (fun d kv => if truthy kv.2 then d else dict_set d kv.1 VNone) project project.

Definition load_data : M (list dict) :=
  try_except
    (do csv_data <- download_blob;
     match Csv.reader csv_data with
     | None => raise CsvError
     | Some rows => ret (map clean_empty_values (Csv.DictReader rows))
     end)
    (fun _ => raise (HTTPException 500)).

Definition save_data (projects : list dict) : M unit :=
  match projects with
  | [] => ret tt
  | first :: _ =>
      try_except
        (let fieldnames := dict_keys first in
         let output := Csv.DictWriter_writeheader fieldnames EmptyString in
         do output <- lift (Csv.DictWriter_writerows fieldnames projects output);
         upload_blob output)
        (fun _ => raise (HTTPException 500))
  end.

(** ** The project handlers *)

(** [p['Category'] == category and p['Project Name'] == project_name];
    [KeyError] when the record lacks the column that is looked at. *)
Definition matches (p : dict) (category project_name : string) : outcome bool :=
  match dict_get p (KStr "Category") with
  | None => Raise KeyError
  | Some c =>
      if eq_str c category then
        match dict_get p (KStr "Project Name") with
        | None => Raise KeyError
        | Some n => Ok (eq_str n project_name)
        end
      else Ok false
  end.

(** [next((i for i, p in enumerate(projects) if ...), -1)], counting from [i]. *)
Fixpoint project_index_from (i : Z) (projects : list dict) (category project_name : string)
  : outcome Z :=
  match projects with
  | [] => Ok (-1)%Z
  | p :: rest =>
      match matches p category project_name with
      | Raise e => Raise e
      | Ok true => Ok i
      | Ok false => project_index_from (i + 1)%Z rest category project_name
      end
  end.

Definition project_index := project_index_from 0%Z.

(** [next((p for p in projects if ...), None)]. *)
Fixpoint find_project (projects : list dict) (category project_name : string)
  : outcome (option dict) :=
  match projects with
  | [] => Ok None
  | p :: rest =>
      match matches p category project_name with
      | Raise e => Raise e
      | Ok true => Ok (Some p)
      | Ok false => find_project rest category project_name
      end
  end.

(** [[p for p in projects if not (...)]]. *)
Fixpoint without_project (projects : list dict) (category project_name : string)
  : outcome (list dict) :=
  match projects with
  | [] => Ok []
  | p :: rest =>
      match matches p category project_name with
      | Raise e => Raise e
      | Ok b =>
          match without_project rest category project_name with
          | Raise e => Raise e
          | Ok kept => Ok (if b then kept else p :: kept)
          end
      end
  end.

(** The update loop of [update_project] on the record found:
    [for key, value in project_data.items():
       if key in project: project[key] = value]. *)
Definition merge_patch (project project_data : dict) : dict :=
  fold_left (fun d kv => if dict_mem kv.1 d then dict_set d kv.1 kv.2 else d)
            project_data project.

(** The collection [update_project] hands to [save_data], once the record
    at [project_index] has been patched in place. *)
Definition patched (projects : list dict) (project_index : Z) (project_data : dict) : list dict :=
  match projects !! Z.to_nat project_index with
  | Some p => <[Z.to_nat project_index := merge_patch p project_data]> projects
  | None => projects
  end.

(** A JSON response body [{"message": ...}], status 200. *)
Definition message := string.

Definition update_project (category project_name : string) (project_data : dict) : M message :=
  try_except
    (do projects <- load_data;
     do index <- lift (project_index projects category project_name);
     if (index =? -1)%Z then raise (HTTPException 404)
     else
       do_ save_data (patched projects index project_data);
       ret "Project updated successfully")
    (fun _ => raise (HTTPException 500)).

Definition add_project (project_data : dict) : M message :=
  try_except
    (do projects <- load_data;
     do_ save_data (projects ++ [project_data]);
     ret "Project added successfully")
    (fun _ => raise (HTTPException 500)).

Definition delete_project (category project_name : string) : M message :=
  try_except
    (do projects <- load_data;
     let original_count := length projects in
     do projects <- lift (without_project projects category project_name);
     if length projects =? original_count then raise (HTTPException 404)
     else
       do_ save_data projects;
       ret "Project deleted successfully")
    (fun _ => raise (HTTPException 500)).

(** [get_project_details] has no [try]: its 404 reaches the client. *)
Definition get_project_details (category project_name : string) : M dict :=
  do projects <- load_data;
  do project <- lift (find_project projects category project_name);
  match project with
  | Some p => ret p
  | None => raise (HTTPException 404)
  end.

(** ** The token endpoint *)

(** [datetime] values, in microseconds since 1970-01-01 00:00:00, and
    [timedelta] values, in microseconds. *)
Definition datetime := Z.
Definition timedelta := Z.

(** [datetime.min] (year 1) and [datetime.max] (year 9999). *)
Definition datetime_min : datetime := (-62135596800000000)%Z.
Definition datetime_max : datetime := 253402300799999999%Z.

(** The sum of a [datetime] and a [timedelta] is a [datetime] within
    these bounds; outside them Python raises [OverflowError]. *)
Definition representable (t : datetime) : Prop :=
  (datetime_min <= t <= datetime_max)%Z.

Definition timedelta_minutes (minutes : Z) : timedelta := (minutes * 60 * 1000000)%Z.

Definition ALGORITHM : string := "HS256".
Definition ACCESS_TOKEN_EXPIRE_MINUTES : Z := 30.

(** The environment variables the endpoint reads; [None] when unset. *)
Record environ := Environ {
  SECRET_KEY : option string;
  ADMIN_USERNAME : option string;
  ADMIN_PASSWORD : option string
}.

(** A claim of a token payload. *)
Inductive claim :=
| ClaimStr (s : string)
| ClaimTime (t : datetime).

Definition claims := list (string * claim).

Record Token (token : Type) := mkToken {
  access_token : token;
  token_type : string
}.
Arguments mkToken {token}.
Arguments access_token {token}.
Arguments token_type {token}.

Section Auth.
(** [jose.jwt.encode(claims, key, algorithm)] and the type of what it
    returns: the library is taken as given. *)
Variable token : Type.
Variable jwt_encode : claims -> option string -> string -> outcome token.

Variable env : environ.

(** [utcnow] is what [datetime.utcnow()] returns when the token is made.
    The expiry is the exact sum: the model covers the calls whose expiry
    is [representable], the others raise [OverflowError] in Python before
    [jwt.encode] is reached.
    An absent or zero [expires_delta] is false in the test. *)
Definition create_access_token (data : claims) (expires_delta : option timedelta)
           (utcnow : datetime) : outcome token :=
  let to_encode := data in
  let expire :=
    match expires_delta with
    | Some delta => if (delta =? 0)%Z then (utcnow + timedelta_minutes 15)%Z
                    else (utcnow + delta)%Z
    | None => (utcnow + timedelta_minutes 15)%Z
    end in
  let to_encode := dict_update to_encode [("exp", ClaimTime expire)] in
  jwt_encode to_encode (SECRET_KEY env) ALGORITHM.

Definition login_for_access_token (username password : string) (utcnow : datetime)
  : outcome (Token token) :=
  if negb (bool_decide (Some username = ADMIN_USERNAME env))
     || negb (bool_decide (Some password = ADMIN_PASSWORD env))
  then Raise (HTTPException 401)
  else
    let access_token_expires := timedelta_minutes ACCESS_TOKEN_EXPIRE_MINUTES in
    match create_access_token [("sub", ClaimStr username)] (Some access_token_expires) utcnow with
    | Raise e => Raise e
    | Ok access_token => Ok (mkToken access_token "bearer")
    end.
End Auth.

(** ** Notions used in the statements *)

(** Every key of [d] is a column of the header. *)
Definition within (fieldnames : list key) (d : dict) : bool :=
  forallb (fun k => bool_decide (k ∈ fieldnames)) (dict_keys d).

(** The header line and the line of a record, cell by cell. *)
Definition header_cells (fieldnames : list key) : list string :=
  map (fun k => Csv.cell_text (Csv.key_value k)) fieldnames.

Definition row_cells (fieldnames : list key) (d : dict) : list string :=
  map (fun k => Csv.cell_text (default (VStr EmptyString) (dict_get d k))) fieldnames.

(** What [csv.DictReader] hands to [dict] and [update] for a row that is
    no longer than the header: the cells under their column names, then
    [None] under the columns the row does not reach. *)
Definition row_items (fieldnames row : list string) : list (key * value) :=
  zip (map KStr fieldnames) (map VStr row)
  ++ map (fun k => (KStr k, VNone)) (drop (length row) fieldnames).

(** The keys of a record read under the header [fieldnames] from such a
    row: the column names, a repeated name counted once. *)
Definition header_keys (fieldnames : list string) : list key :=
  dict_keys (dict_update ([] : dict) (map (fun h => (KStr h, VNone)) fieldnames)).

(** A key that is a column name the reader can hold. *)
Definition column_key (k : key) : Prop :=
  match k with
  | KStr s => Csv.within_limit s
  | KNone => False
  end.

(** A value as [load_data] leaves it under a column name: [None], or a
    non-empty string the reader can hold. *)
Definition loaded_value (v : value) : Prop :=
  match v with
  | VNone => True
  | VStr s => s <> EmptyString /\ Csv.within_limit s
  | _ => False
  end.

(** The state of the reader after a field [f] and the comma or the CR
    that ends it. *)
Definition after_field (flds : list string) (f : string) (t : ascii) : Csv.ReaderObj :=
  Csv.Reader (if Ascii.eqb t COMMA then Csv.START_FIELD else Csv.EAT_CRNL)
             (flds ++ [f]) EmptyString.

(** ** Data of the examples *)

(** The dataset of the examples: one project, Oak St, under Rezoning. *)
Definition oak_st_csv : string :=
  "Category,Project Name,Comments Due Date" +:+ String CR (String LF EmptyString)
  +:+ "Rezoning,Oak St," +:+ String CR (String LF EmptyString).

Definition oak_st : dict :=
  [(KStr "Category", VStr "Rezoning"); (KStr "Project Name", VStr "Oak St");
   (KStr "Comments Due Date", VNone)].

(** The same project, recorded twice. *)
Definition oak_st_twice_csv : string :=
  oak_st_csv +:+ "Rezoning,Oak St," +:+ String CR (String LF EmptyString).

(** A stand-in for [jwt.encode] that keeps its three arguments. *)
Definition plain_token : Type := claims * option string * string.

Definition plain_encode (c : claims) (k : option string) (alg : string) : outcome plain_token :=
  Ok (c, k, alg).

Definition admin_env : environ := Environ (Some "secret") (Some "admin") (Some "pw").

(** A dataset whose only data row has one cell more than the header, the
    record it loads to, and the text [save_data] writes for that record. *)
Definition ragged_csv : string :=
  "a" +:+ String CR (String LF EmptyString) +:+ "1,2" +:+ String CR (String LF EmptyString).

Definition ragged_record : dict := [(KStr "a", VStr "1"); (KNone, VList ["2"])].

Definition ragged_saved_csv : string :=
  "a," +:+ String CR (String LF EmptyString) +:+ "1,['2']" +:+ String CR (String LF EmptyString).

(** Pieces of text for the examples. *)
Definition crlf : string := String CR (String LF EmptyString).
Definition lf : string := String LF EmptyString.
Definition dq : string := String DQUOTE EmptyString.

(** ** The read handlers *)

(** [get_projects]: its [except] clause logs the exception and raises it
    again. *)
Definition get_projects : M (list dict) :=
  try_except (do projects <- load_data; ret projects) (fun e => raise e).

(** [[p for p in projects if p['Category'] == category]]; [KeyError] at
    the first record without the column. *)
Fixpoint in_category (projects : list dict) (category : string) : outcome (list dict) :=
  match projects with
  | [] => Ok []
  | p :: rest =>
      match dict_get p (KStr "Category") with
      | None => Raise KeyError
      | Some c =>
          match in_category rest category with
          | Raise e => Raise e
          | Ok found => Ok (if eq_str c category then p :: found else found)
          end
      end
  end.

(** [get_projects_by_category] has no [try]: what is raised under it goes
    to the framework as it is. *)
Definition get_projects_by_category (category : string) : M (list dict) :=
  do projects <- load_data;
  lift (in_category projects category).

(** ** Further notions used in the statements *)

#[global] Instance KStr_inj : Inj (=) (=) KStr.
Proof. by intros x y [= ->]. Defined.

#[global] Instance outcome_eq_dec {A : Type} `{EqDecision A} : EqDecision (outcome A).
Proof. solve_decision. Defined.

(** The record carries the pair under its two identity columns. *)
Definition has_pair (p : dict) (category project_name : string) : Prop :=
  dict_get p (KStr "Category") = Some (VStr category) /\
  dict_get p (KStr "Project Name") = Some (VStr project_name).

(** A value as it comes back from the blob: written as text by the
    writer, read as a string, the empty string turned into [None]. *)
Definition stored_value (v : value) : value := clean_value (VStr (Csv.cell_text v)).

(** A record as it comes back from the blob under the header
    [fieldnames]: every column of the header, with the stored value of
    the record's field, [None] where the record has no such field. *)
Definition reloaded (fieldnames : list key) (p : dict) : dict :=
  map (fun k => (k, stored_value (default (VStr EmptyString) (dict_get p k)))) fieldnames.

(** A record as it comes back under its own fields. *)
Definition as_stored (p : dict) : dict := map (fun kv => (kv.1, stored_value kv.2)) p.

(** Every value of the record can be written and read again. *)
Definition writable (p : dict) : Prop :=
  Forall (fun kv => Csv.within_limit (Csv.cell_text kv.2)) p.

(** The cell of a row under the column at position [i], as the reader
    hands it over: the text of the cell, [None] when the row ends before
    the column. *)
Definition cell_at (row : list string) (i : nat) : value :=
  match row !! i with
  | Some c => VStr c
  | None => VNone
  end.

(** More data for the examples: two projects under Rezoning and one
    under Final Plat. *)
Definition three_projects_csv : string :=
  "Category,Project Name,Comments Due Date" +:+ crlf
  +:+ "Rezoning,Oak St," +:+ crlf
  +:+ "Final Plat,Mill Rd,01/02/2025" +:+ crlf
  +:+ "Rezoning,Elm St,03/04/2025" +:+ crlf.

Definition mill_rd : dict :=
  [(KStr "Category", VStr "Final Plat"); (KStr "Project Name", VStr "Mill Rd");
   (KStr "Comments Due Date", VStr "01/02/2025")].

Definition elm_st : dict :=
  [(KStr "Category", VStr "Rezoning"); (KStr "Project Name", VStr "Elm St");
   (KStr "Comments Due Date", VStr "03/04/2025")].

(** A dataset without the column [Category]. *)
Definition no_category_csv : string :=
  "Project Name,Comments Due Date" +:+ crlf +:+ "Oak St," +:+ crlf.
(** * Properties *)

(** ** Dictionaries *)

Section DictFacts.
Context {K V : Type} `{EqDecision K}.
Implicit Types (d : list (K * V)) (k : K) (v : V).

Lemma dict_get_None d k : dict_get d k = None <-> k ∉ dict_keys d.
Proof.
  induction d as [|[k' v'] d IH]; simpl.
  - split; [intros _; apply not_elem_of_nil | done].
  - rewrite not_elem_of_cons. destruct (decide (k' = k)) as [->|Hne].
    + split; [done | intros [? _]; done].
    + rewrite IH. split; [intros ?; split; [congruence | done] | intros [_ ?]; done].
Qed.

Lemma dict_mem_true d k : dict_mem k d = true <-> k ∈ dict_keys d.
Proof.
  unfold dict_mem. destruct (dict_get d k) eqn:E.
  - split; [intros _ | done].
    destruct (decide (k ∈ dict_keys d)) as [|Hn]; [done|].
    apply dict_get_None in Hn. congruence.
  - split; [done|]. apply dict_get_None in E. done.
Qed.

Lemma dict_mem_false d k : dict_mem k d = false <-> k ∉ dict_keys d.
Proof.
  rewrite <- dict_mem_true. destruct (dict_mem k d); split; done.
Qed.

Lemma dict_keys_set_mem d k v : k ∈ dict_keys d -> dict_keys (dict_set d k v) = dict_keys d.
Proof.
  induction d as [|[k' v'] d IH]; simpl; intros Hin.
  - by apply elem_of_nil in Hin.
  - destruct (decide (k' = k)) as [->|Hne]; simpl; [done|].
    f_equal. apply IH. apply elem_of_cons in Hin as [->|?]; done.
Qed.

Lemma dict_keys_set_new d k v : k ∉ dict_keys d -> dict_keys (dict_set d k v) = dict_keys d ++ [k].
Proof.
  induction d as [|[k' v'] d IH]; simpl; intros Hin; [done|].
  apply not_elem_of_cons in Hin as [Hne Hin].
  destruct (decide (k' = k)) as [->|_]; [done|]. simpl. f_equal. by apply IH.
Qed.

Lemma dict_get_set d k v k' :
  dict_get (dict_set d k v) k' = if decide (k = k') then Some v else dict_get d k'.
Proof.
  induction d as [|[k0 v0] d IH]; simpl.
  - done.
  - destruct (decide (k0 = k)) as [->|Hne]; simpl.
    + destruct (decide (k = k')); done.
    + rewrite IH. destruct (decide (k0 = k')) as [->|]; [|done].
      destruct (decide (k = k')); [congruence | done].
Qed.

Lemma NoDup_dict_set d k v : NoDup (dict_keys d) -> NoDup (dict_keys (dict_set d k v)).
Proof.
  intros Hnd. destruct (decide (k ∈ dict_keys d)) as [Hin|Hin].
  - by rewrite dict_keys_set_mem.
  - rewrite dict_keys_set_new by done. apply NoDup_app. split; [done|].
    split; [|apply NoDup_singleton].
    intros x Hx Hx'. apply list_elem_of_singleton in Hx'. by subst.
Qed.

Lemma NoDup_dict_update items : forall d,
  NoDup (dict_keys d) -> NoDup (dict_keys (dict_update d items)).
Proof.
  unfold dict_update. induction items as [|[k v] items IH]; simpl; intros d Hnd; [done|].
  apply IH. by apply NoDup_dict_set.
Qed.

(** Setting a key that is already there changes the value at its place. *)
Lemma dict_set_middle (d1 d2 : list (K * V)) k v v' :
  k ∉ dict_keys d1 ->
  dict_set (d1 ++ (k, v) :: d2) k v' = d1 ++ (k, v') :: d2.
Proof.
  induction d1 as [|[k0 v0] d1 IH]; simpl; intros Hn.
  - by rewrite decide_True.
  - apply not_elem_of_cons in Hn as [Hne Hn].
    rewrite decide_False by done. f_equal. by apply IH.
Qed.
End DictFacts.

(** ** The model at work

    Each example agrees with the [csv] module of CPython 3.11 on the same
    input. *)

Example reader_plain_rows :
  Csv.reader ("a,b" +:+ crlf +:+ "1,2" +:+ crlf) = Some [["a"; "b"]; ["1"; "2"]].
Proof. vm_compute. reflexivity. Qed.

Example reader_quoted_line_break :
  Csv.reader ("a" +:+ lf +:+ dq +:+ "x" +:+ lf +:+ "y" +:+ dq +:+ lf)
  = Some [["a"]; ["x" +:+ lf +:+ "y"]].
Proof. vm_compute. reflexivity. Qed.

Example reader_text_after_closing_quote :
  Csv.reader (dq +:+ "x" +:+ dq +:+ "y" +:+ lf) = Some [["xy"]].
Proof. vm_compute. reflexivity. Qed.

Example reader_quote_inside_plain_field :
  Csv.reader ("b" +:+ dq +:+ "c" +:+ lf) = Some [["b" +:+ dq +:+ "c"]].
Proof. vm_compute. reflexivity. Qed.

Example reader_bare_cr_in_field :
  Csv.reader ("x" +:+ String CR "y" +:+ lf) = None.
Proof. vm_compute. reflexivity. Qed.

Example reader_open_quote_at_end :
  Csv.reader ("a" +:+ lf +:+ dq +:+ "xy") = Some [["a"]; ["xy"]].
Proof. vm_compute. reflexivity. Qed.

Example reader_blank_lines :
  Csv.reader ("a" +:+ lf +:+ lf +:+ "1") = Some [["a"]; []; ["1"]].
Proof. vm_compute. reflexivity. Qed.

Example writerow_one_empty_field :
  Csv.writerow [EmptyString] = dq +:+ dq +:+ crlf.
Proof. vm_compute. reflexivity. Qed.

Example writerow_quotes_when_needed :
  Csv.writerow ["a,b"; "c" +:+ dq +:+ "d"; "e"]
  = dq +:+ "a,b" +:+ dq +:+ "," +:+ dq +:+ "c" +:+ dq +:+ dq +:+ "d" +:+ dq +:+ ",e" +:+ crlf.
Proof. vm_compute. reflexivity. Qed.

(** [str()] of a list: the no-break space is written as an escape, the
    quote of an element depends on the quotes it holds. *)
Example py_str_list :
  py_str (VList [String "160"%char "b"; "y'z"; "e" +:+ lf])
  = "['\xa0b', " +:+ dq +:+ "y'z" +:+ dq +:+ ", 'e\n']".
Proof. vm_compute. reflexivity. Qed.

Example load_short_row_and_blank_line :
  load_data (Some ("a,b" +:+ crlf +:+ crlf +:+ "1" +:+ crlf))
  = (Ok [[(KStr "a", VStr "1"); (KStr "b", VNone)]],
     Some ("a,b" +:+ crlf +:+ crlf +:+ "1" +:+ crlf)).
Proof. vm_compute. reflexivity. Qed.

Example load_repeated_column_name :
  (load_data (Some ("a,b,a" +:+ crlf +:+ "1,2" +:+ crlf))).1
  = Ok [[(KStr "a", VNone); (KStr "b", VStr "2")]].
Proof. vm_compute. reflexivity. Qed.

Example load_long_row :
  (load_data (Some ("a" +:+ crlf +:+ "1,2,3" +:+ crlf))).1
  = Ok [[(KStr "a", VStr "1"); (KNone, VList ["2"; "3"])]].
Proof. vm_compute. reflexivity. Qed.

Example save_fills_missing_column :
  save_data [[(KStr "a", VStr "1"); (KStr "b", VStr "2")]; [(KStr "a", VStr "3")]] None
  = (Ok tt, Some ("a,b" +:+ crlf +:+ "1,2" +:+ crlf +:+ "3," +:+ crlf)).
Proof. vm_compute. reflexivity. Qed.

(** The PUT of the specification's scenario: the date is set, the unknown
    field of the body is ignored. *)
Example update_oak_st :
  update_project "Rezoning" "Oak St"
                 [(KStr "Comments Due Date", VStr "03/15/2025"); (KStr "NewField", VStr "x")]
                 (Some oak_st_csv)
  = (Ok "Project updated successfully",
     Some ("Category,Project Name,Comments Due Date" +:+ crlf
           +:+ "Rezoning,Oak St,03/15/2025" +:+ crlf)).
Proof. vm_compute. reflexivity. Qed.

(** Deleting the only project leaves the blob as it was: [save_data]
    returns at once on the empty collection. *)
Example delete_last_project :
  delete_project "Rezoning" "Oak St" (Some oak_st_csv)
  = (Ok "Project deleted successfully", Some oak_st_csv).
Proof. vm_compute. reflexivity. Qed.

(** Closed decidable facts are settled by evaluation. *)
Ltac by_compute := apply (bool_decide_unpack _); vm_compute; exact I.

(** ** Strings *)

Lemma str_app_nil_r (s : string) : s +:+ EmptyString = s.
Proof. induction s as [|c s IH]; simpl; [done | by rewrite IH]. Qed.

Lemma str_app_assoc (s1 s2 s3 : string) : (s1 +:+ s2) +:+ s3 = s1 +:+ (s2 +:+ s3).
Proof. induction s1 as [|c s1 IH]; simpl; [done | by rewrite IH]. Qed.

Lemma str_length_app (s1 s2 : string) :
  String.length (s1 +:+ s2) = String.length s1 + String.length s2.
Proof. induction s1 as [|c s1 IH]; simpl; [done | by rewrite IH]. Qed.

(** ** The monad *)

Lemma load_data_inv st projects st' :
  load_data st = (Ok projects, st') ->
  st' = st /\
  exists text rows, st = Some text /\ Csv.reader text = Some rows /\
    projects = map clean_empty_values (Csv.DictReader rows).
Proof.
  unfold load_data, try_except, bind, download_blob, raise, ret.
  destruct st as [text|]; simpl; [|done].
  destruct (Csv.reader text) as [rows|] eqn:E; simpl; [|done].
  intros [= <- <-]. split; [done|]. by exists text, rows.
Qed.

Lemma load_data_store st : (load_data st).2 = st.
Proof.
  unfold load_data, try_except, bind, download_blob, raise, ret.
  destruct st as [text|]; simpl; [|done]. by destruct (Csv.reader text).
Qed.

(** ** The writer, row by row *)

Lemma within_spec fieldnames d :
  within fieldnames d = true <-> forall k, k ∈ dict_keys d -> k ∈ fieldnames.
Proof.
  unfold within. rewrite forallb_forall. split.
  - intros Hall k Hk. apply list_elem_of_In in Hk. apply Hall in Hk.
    by apply bool_decide_eq_true in Hk.
  - intros Hall k Hk. apply bool_decide_eq_true, Hall. by apply list_elem_of_In.
Qed.

Lemma within_self d : within (dict_keys d) d = true.
Proof. by apply within_spec. Qed.

Lemma dict_to_list_within fieldnames d :
  Csv.dict_to_list fieldnames d =
    if within fieldnames d
    then Ok (map (fun k => default (VStr EmptyString) (dict_get d k)) fieldnames)
    else Raise ValueError.
Proof.
  unfold Csv.dict_to_list, within. generalize (dict_keys d) as ks.
  induction ks as [|k ks IH]; simpl; [done|].
  destruct (bool_decide (k ∈ fieldnames)); simpl; [apply IH | done].
Qed.

Lemma DictWriter_writerows_within fieldnames rowdicts : forall output,
  Csv.DictWriter_writerows fieldnames rowdicts output =
    if forallb (within fieldnames) rowdicts
    then Ok (output +:+ Csv.writerows (map (row_cells fieldnames) rowdicts))
    else Raise ValueError.
Proof.
  induction rowdicts as [|d rest IH]; simpl; intros output.
  - by rewrite str_app_nil_r.
  - rewrite dict_to_list_within. destruct (within fieldnames d); simpl; [|done].
    rewrite IH. destruct (forallb _ rest); [|done].
    rewrite str_app_assoc. unfold row_cells. by rewrite map_map.
Qed.

(** What [save_data] does on a non-empty collection, in one equation. *)
Lemma save_data_cons first rest st :
  save_data (first :: rest) st =
    if forallb (within (dict_keys first)) rest
    then (Ok tt, Some (Csv.writerows (header_cells (dict_keys first)
                                       :: map (row_cells (dict_keys first)) (first :: rest))))
    else (Raise (HTTPException 500), st).
Proof.
  unfold save_data, try_except, bind, lift, upload_blob, raise.
  rewrite DictWriter_writerows_within. cbn [forallb]. rewrite within_self. simpl andb.
  destruct (forallb _ rest); [|done].
  unfold Csv.DictWriter_writeheader, header_cells. simpl. by rewrite map_map.
Qed.

(** ** [save_data] *)

(** C6. [save_data] on an empty collection returns without raising and
    leaves the store as it was, whatever the blob holds: nothing is
    uploaded. *)
Theorem save_data_empty_noop (st : store) : save_data [] st = (Ok tt, st).
Proof. reflexivity. Qed.

(** C1, as the code has it. For a non-empty collection the header is the
    key list of the first record.  When every key of every later record
    is one of these, the save succeeds and the blob becomes the header line
    followed by one line per record, with an empty cell where a record
    lacks a column.  When a later record has a key outside the header,
    nothing is dropped: the save raises HTTP 500 and the store is left as
    it was. *)
Theorem save_data_first_record_header (first : dict) (rest : list dict) (st : store) :
  let fieldnames := dict_keys first in
  save_data (first :: rest) st =
    if forallb (within fieldnames) rest
    then (Ok tt, Some (Csv.writerows (header_cells fieldnames
                                       :: map (row_cells fieldnames) (first :: rest))))
    else (Raise (HTTPException 500), st).
Proof. apply save_data_cons. Qed.

(** C1, refuted as stated: the second record has the field [b], which the
    first lacks; the save does not succeed with [b] dropped, it raises and
    writes nothing. *)
Lemma save_data_extra_field_raises :
  let first := [(KStr "a", VStr "1")] in
  let later := [(KStr "a", VStr "2"); (KStr "b", VStr "3")] in
  (KStr "b" ∈ dict_keys later) /\ (KStr "b" ∉ dict_keys first) /\
  save_data [first; later] (Some "a") = (Raise (HTTPException 500), Some "a").
Proof.
  split; [|split].
  - by_compute.
  - by_compute.
  - vm_compute. reflexivity.
Qed.

Lemma save_data_store_on_raise projects st e st' :
  save_data projects st = (Raise e, st') -> e = HTTPException 500 /\ st' = st.
Proof.
  destruct projects as [|first rest]; [done|].
  rewrite save_data_cons. destruct (forallb _ rest); [done|]. by intros [= <- <-].
Qed.

(** ** Scanning for a project *)

Lemma project_index_from_absent projects category project_name : forall i,
  (forall p, p ∈ projects -> matches p category project_name = Ok false) ->
  project_index_from i projects category project_name = Ok (-1)%Z.
Proof.
  induction projects as [|p rest IH]; simpl; intros i Hall; [done|].
  rewrite (Hall p) by apply list_elem_of_here.
  apply IH. intros q Hq. apply Hall. by apply list_elem_of_further.
Qed.

Lemma without_project_absent projects category project_name :
  (forall p, p ∈ projects -> matches p category project_name = Ok false) ->
  without_project projects category project_name = Ok projects.
Proof.
  induction projects as [|p rest IH]; simpl; intros Hall; [done|].
  rewrite (Hall p) by apply list_elem_of_here.
  rewrite IH; [done|]. intros q Hq. apply Hall. by apply list_elem_of_further.
Qed.

Lemma find_project_absent projects category project_name :
  (forall p, p ∈ projects -> matches p category project_name = Ok false) ->
  find_project projects category project_name = Ok None.
Proof.
  induction projects as [|p rest IH]; simpl; intros Hall; [done|].
  rewrite (Hall p) by apply list_elem_of_here.
  apply IH. intros q Hq. apply Hall. by apply list_elem_of_further.
Qed.

(** The index found is that of the first record that matches. *)
Lemma project_index_from_found projects category project_name : forall i index,
  project_index_from i projects category project_name = Ok index ->
  index <> (-1)%Z -> (0 <= i)%Z ->
  exists (n : nat) (target : dict),
    index = (i + Z.of_nat n)%Z /\
    projects !! n = Some target /\
    matches target category project_name = Ok true /\
    forall (j : nat) (p : dict), j < n -> projects !! j = Some p ->
                                 matches p category project_name = Ok false.
Proof.
  induction projects as [|p rest IH]; simpl; intros i index Hfind Hne Hi.
  - congruence.
  - destruct (matches p category project_name) as [[|]|e] eqn:Hm; [| |done].
    + injection Hfind as <-. exists 0, p. split; [lia|]. split; [done|]. split; [done|].
      intros j q Hj. lia.
    + apply IH in Hfind as (n & target & -> & Hn & Ht & Hbefore); [|done|lia].
      exists (S n), target. split; [lia|]. split; [done|]. split; [done|].
      intros [|j] q Hj Hq; simpl in Hq.
      * by injection Hq as <-.
      * apply (Hbefore j); [lia | done].
Qed.

(** ** The update loop *)

Lemma merge_patch_unknown_keys (project_data project : dict) :
  (forall k, k ∈ dict_keys project_data -> k ∉ dict_keys project) ->
  merge_patch project project_data = project.
Proof.
  unfold merge_patch.
  induction project_data as [|[k v] rest IH]; simpl; intros Hall; [done|].
  assert (dict_mem k project = false) as ->.
  { apply dict_mem_false, Hall. apply list_elem_of_here. }
  apply IH. intros k' Hk'. apply Hall. by apply list_elem_of_further.
Qed.

(** The loop never adds or removes a field. *)
Lemma merge_patch_keys (project_data : dict) : forall project : dict,
  dict_keys (merge_patch project project_data) = dict_keys project.
Proof.
  unfold merge_patch.
  induction project_data as [|[k v] rest IH]; simpl; intros project; [done|].
  destruct (dict_mem k project) eqn:E; [|apply IH].
  rewrite IH. apply dict_keys_set_mem. by apply dict_mem_true.
Qed.

(** C5. A patch whose keys are all absent from the target record leaves
    the record as it was: no key is added, no value is changed; the
    collection handed to [save_data] is the one that was loaded. *)
Theorem merge_patch_unknown_keys_unchanged
        (projects : list dict) (index : nat) (project project_data : dict) :
  projects !! index = Some project ->
  (forall k, k ∈ dict_keys project_data -> k ∉ dict_keys project) ->
  merge_patch project project_data = project /\
  patched projects (Z.of_nat index) project_data = projects.
Proof.
  intros Hlook Hall. pose proof (merge_patch_unknown_keys _ _ Hall) as Hm.
  split; [done|]. unfold patched. rewrite Nat2Z.id, Hlook, Hm.
  by apply list_insert_id.
Qed.

Lemma merge_patch_unknown_keys_unchanged_witness :
  let project := [(KStr "Category", VStr "Rezoning"); (KStr "Project Name", VStr "Oak St")] in
  let project_data := [(KStr "NewField", VStr "x")] in
  merge_patch project project_data = project /\
  patched [project] (Z.of_nat 0) project_data = [project].
Proof.
  intros project project_data.
  apply (merge_patch_unknown_keys_unchanged [project] 0 project project_data).
  - reflexivity.
  - intros k Hk. apply list_elem_of_singleton in Hk as ->. by_compute.
Defined.

(** ** The handlers *)

(** C2. When no record of the loaded dataset matches the pair, the
    handler of PUT raises its [HTTPException(404)] inside its own [try]
    block; the [except Exception] clause catches it and raises
    [HTTPException(500)] in its place.  The client gets status 500, not
    404.  The store is not written. *)
Theorem update_project_absent_raises_500
        (category project_name : string) (project_data : dict)
        (projects : list dict) (st : store) :
  load_data st = (Ok projects, st) ->
  (forall p, p ∈ projects -> matches p category project_name = Ok false) ->
  update_project category project_name project_data st = (Raise (HTTPException 500), st).
Proof.
  intros Hload Habsent.
  unfold update_project, try_except, bind, lift. rewrite Hload.
  unfold project_index. rewrite project_index_from_absent by done. reflexivity.
Qed.

Lemma load_oak_st : load_data (Some oak_st_csv) = (Ok [oak_st], Some oak_st_csv).
Proof. vm_compute. reflexivity. Qed.

Lemma update_project_absent_raises_500_witness :
  update_project "Rezoning" "Elm St" [(KStr "Comments Due Date", VStr "03/15/2025")]
                 (Some oak_st_csv)
  = (Raise (HTTPException 500), Some oak_st_csv).
Proof.
  apply (update_project_absent_raises_500 "Rezoning" "Elm St" _ [oak_st]).
  - vm_compute. reflexivity.
  - intros p Hp. apply list_elem_of_singleton in Hp as ->. vm_compute. reflexivity.
Defined.

(** The sibling read path, which has no [try], does answer 404 there. *)
Lemma get_project_details_absent_raises_404
      (category project_name : string) (projects : list dict) (st : store) :
  load_data st = (Ok projects, st) ->
  (forall p, p ∈ projects -> matches p category project_name = Ok false) ->
  get_project_details category project_name st = (Raise (HTTPException 404), st).
Proof.
  intros Hload Habsent. unfold get_project_details, bind, lift. rewrite Hload.
  rewrite find_project_absent by done. reflexivity.
Qed.

(** C3. When no record matches the pair, the handler of DELETE raises
    its [HTTPException(404)] inside its own [try] block, and the
    [except Exception] clause turns it into [HTTPException(500)].  The
    store is not written. *)
Theorem delete_project_absent_raises_500
        (category project_name : string) (projects : list dict) (st : store) :
  load_data st = (Ok projects, st) ->
  (forall p, p ∈ projects -> matches p category project_name = Ok false) ->
  delete_project category project_name st = (Raise (HTTPException 500), st).
Proof.
  intros Hload Habsent.
  unfold delete_project, try_except, bind, lift. rewrite Hload.
  rewrite without_project_absent by done. rewrite Nat.eqb_refl. reflexivity.
Qed.

Lemma delete_project_absent_raises_500_witness :
  delete_project "Rezoning" "Elm St" (Some oak_st_csv)
  = (Raise (HTTPException 500), Some oak_st_csv).
Proof.
  apply (delete_project_absent_raises_500 "Rezoning" "Elm St" [oak_st]).
  - vm_compute. reflexivity.
  - intros p Hp. apply list_elem_of_singleton in Hp as ->. vm_compute. reflexivity.
Defined.

(** No request makes the two write handlers answer 404. *)
Lemma update_project_never_404 category project_name project_data st :
  (update_project category project_name project_data st).1 <> Raise (HTTPException 404).
Proof.
  unfold update_project, try_except.
  destruct (bind _ _ st) as [[m|e] st']; simpl; [done|]. unfold raise. simpl. congruence.
Qed.

Lemma delete_project_never_404 category project_name st :
  (delete_project category project_name st).1 <> Raise (HTTPException 404).
Proof.
  unfold delete_project, try_except.
  destruct (bind _ _ st) as [[m|e] st']; simpl; [done|]. unfold raise. simpl. congruence.
Qed.

Lemma forallb_within_app fieldnames (l1 l2 : list dict) :
  forallb (within fieldnames) (l1 ++ l2)
  = forallb (within fieldnames) l1 && forallb (within fieldnames) l2.
Proof. apply forallb_app. Qed.

(** C9. When the dataset loads with a first record and the body of POST
    has a field name that this record lacks, the writer rejects the
    appended collection: the handler raises HTTP 500 and the store is as
    it was before the request. *)
Theorem add_project_unknown_field_raises
        (project_data first : dict) (rest : list dict) (k : key) (st : store) :
  load_data st = (Ok (first :: rest), st) ->
  k ∈ dict_keys project_data ->
  k ∉ dict_keys first ->
  add_project project_data st = (Raise (HTTPException 500), st).
Proof.
  intros Hload Hk Hnk.
  unfold add_project, try_except, bind. rewrite Hload.
  change ((first :: rest) ++ [project_data]) with (first :: (rest ++ [project_data])).
  rewrite save_data_cons, forallb_within_app.
  assert (within (dict_keys first) project_data = false) as Hout.
  { apply not_true_iff_false. intros Hw. apply Hnk. by apply (proj1 (within_spec _ _) Hw). }
  simpl forallb at 2. rewrite Hout, andb_false_r. reflexivity.
Qed.

Lemma add_project_unknown_field_raises_witness :
  add_project [(KStr "Category", VStr "Rezoning"); (KStr "Project Name", VStr "Elm St");
               (KStr "NewField", VStr "x")] (Some oak_st_csv)
  = (Raise (HTTPException 500), Some oak_st_csv).
Proof.
  apply (add_project_unknown_field_raises _ oak_st [] (KStr "NewField")).
  - vm_compute. reflexivity.
  - by_compute.
  - by_compute.
Defined.

(** C10. When PUT succeeds, the collection handed to [save_data] is the
    loaded one with the record at one index replaced by its patched
    version; that index is the first whose record matches the pair;
    every other index, later duplicates of the pair included, holds the
    record that was loaded. *)
Theorem update_project_touches_first_match_only
        (category project_name : string) (project_data : dict)
        (st st' : store) (response : message) :
  update_project category project_name project_data st = (Ok response, st') ->
  exists (projects : list dict) (index : nat) (target : dict),
    load_data st = (Ok projects, st) /\
    projects !! index = Some target /\
    matches target category project_name = Ok true /\
    (forall (j : nat) (p : dict), j < index -> projects !! j = Some p ->
                                  matches p category project_name = Ok false) /\
    let saved := <[index := merge_patch target project_data]> projects in
    save_data saved st = (Ok tt, st') /\
    length saved = length projects /\
    forall j : nat, j <> index -> saved !! j = projects !! j.
Proof.
  unfold update_project, try_except, bind, lift.
  destruct (load_data st) as [[projects|e] st1] eqn:Hload; [|done].
  apply load_data_inv in Hload as Hst. destruct Hst as [-> _].
  destruct (project_index projects category project_name) as [index|e] eqn:Hidx; [|done].
  destruct (index =? -1)%Z eqn:Hm1; [done|]. apply Z.eqb_neq in Hm1.
  destruct (save_data _ st) as [[[]|e] st2] eqn:Hsave; [|done].
  unfold ret. intros [= <- <-].
  apply project_index_from_found in Hidx as (n & target & -> & Hn & Ht & Hbefore); [|done|lia].
  exists projects, n, target. split; [done|]. split; [done|]. split; [done|]. split; [done|].
  unfold patched in Hsave. rewrite Z.add_0_l, Nat2Z.id, Hn in Hsave.
  split; [done|]. split; [apply length_insert|].
  intros j Hj. by apply list_lookup_insert_ne.
Qed.

(** ** [load_data]: the clean-up loop *)

Lemma clean_value_not_empty (v : value) : clean_value v <> VStr EmptyString.
Proof.
  unfold clean_value. destruct (truthy v) eqn:E; [|done].
  intros ->. simpl in E. done.
Qed.

Lemma clean_loop (d2 : dict) : forall d1 : dict,
  NoDup (dict_keys (d1 ++ d2)) ->
  fold_left (fun d kv => if truthy kv.2 then d else dict_set d kv.1 VNone) d2
            (map clean_item d1 ++ d2)
  = map clean_item (d1 ++ d2).
Proof.
  induction d2 as [|[k v] d2 IH]; intros d1 Hnd; simpl.
  - by rewrite !app_nil_r.
  - assert (NoDup (dict_keys ((d1 ++ [(k, v)]) ++ d2))) as Hnd'.
    { by rewrite <- app_assoc. }
    specialize (IH (d1 ++ [(k, v)]) Hnd').
    rewrite <- app_assoc in IH. simpl in IH. rewrite <- IH.
    rewrite map_app. simpl. rewrite <- app_assoc. simpl.
    f_equal. change (clean_item (k, v)) with (k, clean_value v).
    unfold clean_value. destruct (truthy v); [done|].
    apply dict_set_middle.
    unfold dict_keys in *. rewrite map_map. simpl.
    rewrite map_app in Hnd. apply NoDup_app in Hnd as (_ & Hdisj & _).
    intros Hin. apply (Hdisj k Hin). simpl. apply list_elem_of_here.
Qed.

(** On a dictionary the loop is a map over the values. *)
Lemma clean_empty_values_map (d : dict) :
  NoDup (dict_keys d) -> clean_empty_values d = map clean_item d.
Proof. intros Hnd. apply (clean_loop d []). done. Qed.

Lemma dict_get_clean (d : dict) (k : key) :
  dict_get (map clean_item d) k = clean_value <$> dict_get d k.
Proof.
  induction d as [|[k' v] d IH]; simpl; [done|].
  destruct (decide (k' = k)); [done | apply IH].
Qed.

Lemma NoDup_DictReader_row (fieldnames row : list string) :
  NoDup (dict_keys (Csv.DictReader_row fieldnames row)).
Proof.
  unfold Csv.DictReader_row.
  assert (NoDup (dict_keys (dict_update ([] : dict)
            (zip (map KStr fieldnames) (map VStr row))))) as Hnd.
  { apply NoDup_dict_update. apply NoDup_nil_2. }
  destruct (_ <? _); [by apply NoDup_dict_set|].
  destruct (_ <? _); [by apply NoDup_dict_update | done].
Qed.

Lemma NoDup_DictReader (rows : list (list string)) (raw : dict) :
  raw ∈ Csv.DictReader rows -> NoDup (dict_keys raw).
Proof.
  destruct rows as [|fieldnames data]; simpl; [by intros ?%elem_of_nil|].
  intros Hin. apply list_elem_of_fmap in Hin as (row & -> & _).
  apply NoDup_DictReader_row.
Qed.

(** C7. In every record [load_data] returns, a field that the reader
    produced as the empty string is [None], and no field is the empty
    string. *)
Theorem load_data_no_empty_string (st st' : store) (projects : list dict) :
  load_data st = (Ok projects, st') ->
  (forall (p : dict) (k : key), p ∈ projects -> dict_get p k <> Some (VStr EmptyString)) /\
  exists (text : string) (rows : list (list string)),
    st = Some text /\ Csv.reader text = Some rows /\
    projects = map clean_empty_values (Csv.DictReader rows) /\
    forall (raw : dict) (k : key),
      raw ∈ Csv.DictReader rows ->
      dict_get raw k = Some (VStr EmptyString) ->
      dict_get (clean_empty_values raw) k = Some VNone.
Proof.
  intros Hload. apply load_data_inv in Hload as (-> & text & rows & -> & Hrows & ->).
  split.
  - intros p k Hp. apply list_elem_of_fmap in Hp as (raw & -> & Hraw).
    rewrite clean_empty_values_map by (by eapply NoDup_DictReader).
    rewrite dict_get_clean. destruct (dict_get raw k) as [v|]; simpl; [|done].
    intros [= Hv]. by apply clean_value_not_empty in Hv.
  - exists text, rows. split; [done|]. split; [done|]. split; [done|].
    intros raw k Hraw Hget.
    rewrite clean_empty_values_map by (by eapply NoDup_DictReader).
    rewrite dict_get_clean, Hget. reflexivity.
Qed.

Lemma load_data_no_empty_string_witness :
  (forall (p : dict) (k : key), p ∈ [oak_st] -> dict_get p k <> Some (VStr EmptyString)) /\
  exists (text : string) (rows : list (list string)),
    Some oak_st_csv = Some text /\ Csv.reader text = Some rows /\
    [oak_st] = map clean_empty_values (Csv.DictReader rows) /\
    forall (raw : dict) (k : key),
      raw ∈ Csv.DictReader rows ->
      dict_get raw k = Some (VStr EmptyString) ->
      dict_get (clean_empty_values raw) k = Some VNone.
Proof.
  apply (load_data_no_empty_string (Some oak_st_csv) (Some oak_st_csv) [oak_st]).
  vm_compute. reflexivity.
Defined.

(** ** The token endpoint *)



Lemma update_project_touches_first_match_only_witness :
  let st := Some oak_st_twice_csv in
  let project_data := [(KStr "Comments Due Date", VStr "03/15/2025")] in
  let st' := (update_project "Rezoning" "Oak St" project_data st).2 in
  exists (projects : list dict) (index : nat) (target : dict),
    load_data st = (Ok projects, st) /\
    projects !! index = Some target /\
    matches target "Rezoning" "Oak St" = Ok true /\
    (forall (j : nat) (p : dict), j < index -> projects !! j = Some p ->
                                  matches p "Rezoning" "Oak St" = Ok false) /\
    let saved := <[index := merge_patch target project_data]> projects in
    save_data saved st = (Ok tt, st') /\
    length saved = length projects /\
    forall j : nat, j <> index -> saved !! j = projects !! j.
Proof.
  intros st project_data st'.
  apply (update_project_touches_first_match_only
           "Rezoning" "Oak St" project_data st st' "Project updated successfully").
  vm_compute. reflexivity.
Defined.

(** ** The reader, line by line and character by character *)

Import Csv.

Lemma split_lines_nil (text : string) : split_lines text = [] -> text = EmptyString.
Proof.
  destruct text as [|c rest]; simpl; [done|].
  destruct (Ascii.eqb c LF); [done|]. by destruct (split_lines rest).
Qed.

Lemma reader_text_midline (self : ReaderObj) (m m' : bool) (text : string) :
  text <> EmptyString -> reader_text self m text = reader_text self m' text.
Proof. by destruct text. Qed.

Lemma reader_from_split_lines (text : string) : forall self : ReaderObj,
  reader_from self (split_lines text) = reader_text self false text.
Proof.
  induction text as [|c rest IH]; intros self; [done|].
  cbn [split_lines reader_text]. destruct (Ascii.eqb c LF) eqn:Hc.
  - cbn [reader_from process_line].
    destruct (parse_process_char self (Chr c)) as [s1|]; [|done].
    destruct (parse_process_char s1 EOL) as [s2|]; [|done].
    by rewrite !IH.
  - destruct (split_lines rest) as [|line lines] eqn:Hlines.
    + apply split_lines_nil in Hlines as ->. cbn.
      destruct (parse_process_char self (Chr c)) as [s1|]; [|done].
      destruct (parse_process_char s1 EOL) as [s2|]; [|done].
      by destruct (decide (state s2 = START_RECORD)).
    + cbn [reader_from process_line].
      destruct (parse_process_char self (Chr c)) as [s1|]; [|done].
      rewrite (reader_text_midline s1 true false).
      * rewrite <- IH. reflexivity.
      * intros ->. done.
Qed.

(** [reader] is [reader_text] from the initial state. *)
Lemma reader_reader_text (text : string) :
  reader text = reader_text parse_reset false text.
Proof. apply reader_from_split_lines. Qed.

(** ** What the reader makes of what the writer wrote *)

Lemma within_limit_empty : within_limit EmptyString.
Proof. unfold within_limit, field_limit. simpl. lia. Qed.

Lemma within_limit_snoc (acc : string) (c : ascii) (f : string) :
  within_limit (acc +:+ String c f) -> within_limit ((acc +:+ String c EmptyString) +:+ f).
Proof. by rewrite str_app_assoc. Qed.

Lemma parse_add_char_within (st : ParserState) (flds : list string) (acc : string)
      (c : ascii) (f : string) :
  within_limit (acc +:+ String c f) ->
  parse_add_char (Reader st flds acc) c = Some (Reader st flds (acc +:+ String c EmptyString)).
Proof.
  unfold within_limit, parse_add_char, field_limit. rewrite str_length_app. simpl.
  intros Hlen. destruct (N.ltb_spec (N.of_nat (String.length acc)) 131072); [done | lia].
Qed.

Lemma must_quote_false (c : ascii) :
  must_quote c = false ->
  Ascii.eqb c COMMA = false /\ Ascii.eqb c DQUOTE = false /\
  Ascii.eqb c CR = false /\ Ascii.eqb c LF = false.
Proof.
  unfold must_quote. intros H.
  apply orb_false_elim in H as [H H4]. apply orb_false_elim in H as [H H3].
  apply orb_false_elim in H as [H1 H2]. done.
Qed.

Lemma must_quote_not_lf (c : ascii) : must_quote c = false -> Ascii.eqb c LF = false.
Proof. by intros (_ & _ & _ & ?)%must_quote_false. Qed.

Lemma must_quote_not_newline (c : ascii) : must_quote c = false -> is_newline c = false.
Proof. intros (_ & _ & Hcr & Hlf)%must_quote_false. unfold is_newline. by rewrite Hcr, Hlf. Qed.

(** One character of a line that is not LF. *)
Lemma reader_text_step (self s1 : ReaderObj) (c : ascii) (m : bool) (rest : string) :
  parse_process_char self (Chr c) = Some s1 ->
  Ascii.eqb c LF = false ->
  reader_text self m (String c rest) = reader_text s1 true rest.
Proof. intros Hpc Hc. cbn [reader_text]. by rewrite Hpc, Hc. Qed.

(** An LF inside a record. *)
Lemma reader_text_step_lf (self s1 s2 : ReaderObj) (m : bool) (rest : string) :
  parse_process_char self (Chr LF) = Some s1 ->
  parse_process_char s1 EOL = Some s2 ->
  state s2 <> START_RECORD ->
  reader_text self m (String LF rest) = reader_text s2 false rest.
Proof.
  intros Hpc Heol Hst. cbn [reader_text]. rewrite Hpc, Heol.
  change (Ascii.eqb LF LF) with true. cbn iota. by rewrite decide_False.
Qed.

(** The LF that ends a record. *)
Lemma reader_text_step_record (self s1 s2 : ReaderObj) (m : bool) (rest : string) :
  parse_process_char self (Chr LF) = Some s1 ->
  parse_process_char s1 EOL = Some s2 ->
  state s2 = START_RECORD ->
  reader_text self m (String LF rest)
  = option_map (cons (fields s2)) (reader_text parse_reset false rest).
Proof.
  intros Hpc Heol Hst. cbn [reader_text]. rewrite Hpc, Heol.
  change (Ascii.eqb LF LF) with true. cbn iota. by rewrite decide_True.
Qed.

Lemma step_in_quoted (flds : list string) (acc : string) (c : ascii) (f : string) :
  Ascii.eqb c DQUOTE = false ->
  within_limit (acc +:+ String c f) ->
  parse_process_char (Reader IN_QUOTED_FIELD flds acc) (Chr c)
  = Some (Reader IN_QUOTED_FIELD flds (acc +:+ String c EmptyString)).
Proof.
  intros Hq Hlim. unfold parse_process_char. cbn [state]. rewrite Hq.
  by eapply parse_add_char_within.
Qed.

Lemma step_doubled_quote (flds : list string) (acc f : string) :
  within_limit (acc +:+ String DQUOTE f) ->
  parse_process_char (Reader QUOTE_IN_QUOTED_FIELD flds acc) (Chr DQUOTE)
  = Some (Reader IN_QUOTED_FIELD flds (acc +:+ String DQUOTE EmptyString)).
Proof.
  intros Hlim. unfold parse_process_char. cbn [state].
  change (Ascii.eqb DQUOTE DQUOTE) with true. cbn iota.
  by erewrite parse_add_char_within.
Qed.

Lemma step_in_field (flds : list string) (acc : string) (c : ascii) (f : string) :
  must_quote c = false ->
  within_limit (acc +:+ String c f) ->
  parse_process_char (Reader IN_FIELD flds acc) (Chr c)
  = Some (Reader IN_FIELD flds (acc +:+ String c EmptyString)).
Proof.
  intros (Hc & Hq & Hcr & Hlf)%must_quote_false Hlim.
  unfold parse_process_char, is_newline. cbn [state]. rewrite Hlf, Hcr, Hc. cbn [orb].
  by eapply parse_add_char_within.
Qed.

Lemma step_start_field (flds : list string) (c : ascii) (f : string) :
  must_quote c = false ->
  within_limit (String c f) ->
  parse_process_char (Reader START_FIELD flds EmptyString) (Chr c)
  = Some (Reader IN_FIELD flds (String c EmptyString)).
Proof.
  intros (Hc & Hq & Hcr & Hlf)%must_quote_false Hlim.
  unfold parse_process_char, start_field, is_newline. cbn [state].
  rewrite Hlf, Hcr, Hq, Hc. cbn [orb].
  by erewrite (parse_add_char_within _ _ EmptyString).
Qed.

Lemma step_start_record (flds : list string) (acc : string) (c : ascii) :
  is_newline c = false ->
  parse_process_char (Reader START_RECORD flds acc) (Chr c)
  = parse_process_char (Reader START_FIELD flds acc) (Chr c).
Proof. intros Hc. unfold parse_process_char. cbn [state]. by rewrite Hc. Qed.

(** Inside quotes: the doubled quotes of the writer come back as one. *)
Lemma read_quoted_body (f : string) : forall (flds : list string) (acc : string) (m : bool) (rest : string),
  within_limit (acc +:+ f) ->
  reader_text (Reader IN_QUOTED_FIELD flds acc) m (join_append_data f +:+ String DQUOTE rest)
  = reader_text (Reader QUOTE_IN_QUOTED_FIELD flds (acc +:+ f)) true rest.
Proof.
  induction f as [|c f IH]; intros flds acc m rest Hlim.
  - rewrite str_app_nil_r. reflexivity.
  - apply within_limit_snoc in Hlim as Hlim'.
    cbn [join_append_data]. destruct (Ascii.eqb c DQUOTE) eqn:Hq.
    + apply Ascii.eqb_eq in Hq as ->. cbn [String.append].
      rewrite (reader_text_step _ (Reader QUOTE_IN_QUOTED_FIELD flds acc)) by done.
      erewrite reader_text_step; [|by eapply step_doubled_quote|done].
      rewrite IH by done. by rewrite str_app_assoc.
    + cbn [String.append]. destruct (Ascii.eqb c LF) eqn:Hlf.
      * apply Ascii.eqb_eq in Hlf as ->.
        erewrite reader_text_step_lf; [|by eapply step_in_quoted|reflexivity|done].
        rewrite IH by done. by rewrite str_app_assoc.
      * erewrite reader_text_step; [|by eapply step_in_quoted|done].
        rewrite IH by done. by rewrite str_app_assoc.
Qed.

(** Outside quotes: the characters as they are. *)
Lemma read_plain_body (f : string) : forall (flds : list string) (acc : string) (m : bool) (rest : string),
  needs_quotes f = false ->
  within_limit (acc +:+ f) ->
  rest <> EmptyString ->
  reader_text (Reader IN_FIELD flds acc) m (f +:+ rest)
  = reader_text (Reader IN_FIELD flds (acc +:+ f)) true rest.
Proof.
  induction f as [|c f IH]; intros flds acc m rest Hplain Hlim Hrest.
  - rewrite str_app_nil_r. by apply reader_text_midline.
  - apply within_limit_snoc in Hlim as Hlim'.
    cbn [needs_quotes] in Hplain. apply orb_false_elim in Hplain as [Hc Hplain].
    cbn [String.append].
    erewrite reader_text_step; [|by eapply step_in_field|by apply must_quote_not_lf].
    rewrite IH by done. by rewrite str_app_assoc.
Qed.

(** A field as [join_append] writes it, up to and including the comma or
    the CR after it. *)
Lemma read_field (f : string) (flds : list string) (t : ascii) (m : bool) (rest : string) :
  within_limit f ->
  t = COMMA \/ t = CR ->
  reader_text (Reader START_FIELD flds EmptyString) m
              (join_append f false +:+ String t rest)
  = reader_text (after_field flds f t) true rest.
Proof.
  intros Hlim Ht. unfold join_append. cbn [orb].
  destruct (needs_quotes f) eqn:Hq.
  - cbn [String.append]. rewrite str_app_assoc. cbn [String.append].
    rewrite (reader_text_step _ (Reader IN_QUOTED_FIELD flds EmptyString)) by done.
    rewrite read_quoted_body by done. cbn [String.append].
    destruct Ht as [-> | ->]; by apply reader_text_step.
  - destruct f as [|c f].
    + cbn [String.append]. destruct Ht as [-> | ->]; by apply reader_text_step.
    + cbn [needs_quotes] in Hq. apply orb_false_elim in Hq as [Hc Hq].
      cbn [String.append].
      erewrite reader_text_step; [|by eapply step_start_field|by apply must_quote_not_lf].
      rewrite read_plain_body by done. cbn [String.append].
      destruct Ht as [-> | ->]; by apply reader_text_step.
Qed.

(** The fields of a record, from the first to the CR LF that ends it. *)
Lemma read_fields (fs : list string) : forall (flds : list string) (m : bool) (rest : string),
  fs <> [] ->
  Forall within_limit fs ->
  reader_text (Reader START_FIELD flds EmptyString) m
              (join_fields fs +:+ String CR (String LF rest))
  = option_map (cons (flds ++ fs)) (reader_text parse_reset false rest).
Proof.
  induction fs as [|f fs IH]; intros flds m rest Hne Hlim; [done|].
  apply Forall_cons in Hlim as [Hf Hlim].
  destruct fs as [|f2 fs].
  - cbn [join_fields]. rewrite read_field by auto.
    by rewrite (reader_text_step_record _ (Reader EAT_CRNL (flds ++ [f]) EmptyString)
                                       (Reader START_RECORD (flds ++ [f]) EmptyString)).
  - change (join_fields (f :: f2 :: fs))
      with (join_append f false +:+ String COMMA (join_fields (f2 :: fs))).
    rewrite str_app_assoc. cbn [String.append].
    rewrite read_field by auto.
    change (after_field flds f COMMA) with (Reader START_FIELD (flds ++ [f]) EmptyString).
    rewrite IH by done. by rewrite <- app_assoc.
Qed.

Lemma join_append_plain_head (f : string) (c : ascii) (s : string) :
  join_append f false = String c s -> is_newline c = false.
Proof.
  unfold join_append. cbn [orb]. destruct (needs_quotes f) eqn:Hq.
  - by intros [= <- _].
  - intros ->. cbn [needs_quotes] in Hq. apply orb_false_elim in Hq as [Hc _].
    by apply must_quote_not_newline.
Qed.

Lemma join_fields_head (fs : list string) (c : ascii) (s : string) :
  join_fields fs = String c s -> is_newline c = false.
Proof.
  destruct fs as [|f [|f2 fs]]; cbn [join_fields]; [done|apply join_append_plain_head|].
  destruct (join_append f false) as [|c' s'] eqn:Hf; cbn [String.append].
  - by intros [= <- _].
  - intros [= -> _]. by eapply join_append_plain_head.
Qed.

Lemma join_fields_empty (fs : list string) :
  join_fields fs = EmptyString -> fs = [] \/ fs = [EmptyString].
Proof.
  destruct fs as [|f [|f2 fs]]; cbn [join_fields]; [by left| |].
  - unfold join_append. cbn [orb]. destruct (needs_quotes f); [done|]. intros ->. by right.
  - by destruct (join_append f false).
Qed.

(** A line of the writer gives back the record it was written from. *)
Lemma read_writerow (fs : list string) (rest : string) :
  Forall within_limit fs ->
  reader_text parse_reset false (writerow fs +:+ rest)
  = option_map (cons fs) (reader_text parse_reset false rest).
Proof.
  intros Hlim. unfold writerow.
  destruct (join_fields fs) as [|c line] eqn:Hline.
  - apply join_fields_empty in Hline as [-> | ->]; reflexivity.
  - assert (fs <> []) as Hne by (by intros ->).
    cbn [String.length Nat.eqb]. rewrite andb_false_r.
    rewrite str_app_assoc. cbn [String.append reader_text].
    unfold parse_reset at 1. rewrite step_start_record by (by eapply join_fields_head).
    pose proof (read_fields fs [] false rest Hne Hlim) as Hread.
    rewrite Hline in Hread. cbn [String.append reader_text] in Hread.
    exact Hread.
Qed.

Lemma read_writerows (rows : list (list string)) :
  Forall (Forall within_limit) rows ->
  reader_text parse_reset false (writerows rows) = Some rows.
Proof.
  induction rows as [|fs rows IH]; intros Hlim; [done|].
  apply Forall_cons in Hlim as [Hfs Hlim].
  cbn [writerows]. rewrite read_writerow by done. by rewrite IH.
Qed.

(** The reader gives back the rows the writer wrote. *)
Lemma reader_writerows (rows : list (list string)) :
  Forall (Forall within_limit) rows -> reader (writerows rows) = Some rows.
Proof. intros Hlim. rewrite reader_reader_text. by apply read_writerows. Qed.

(** ** Every field the reader returns is within the limit *)

Lemma parse_add_char_limit (self s' : ReaderObj) (c : ascii) :
  parse_add_char self c = Some s' ->
  fields s' = fields self /\ within_limit (field s').
Proof.
  unfold parse_add_char, within_limit, field_limit.
  destruct (N.ltb_spec (N.of_nat (String.length (field self))) 131072) as [Hlt|]; [|done].
  intros [= <-]. cbn. split; [done|]. rewrite str_length_app. cbn. lia.
Qed.

Lemma parse_process_char_limit (self s' : ReaderObj) (c : pchar) :
  parse_process_char self c = Some s' ->
  Forall within_limit (fields self) -> within_limit (field self) ->
  Forall within_limit (fields s') /\ within_limit (field s').
Proof.
  intros Hpc Hfs Hf.
  assert (Forall within_limit (fields self ++ [field self])) as Hsave.
  { apply Forall_app. split; [done | by apply Forall_singleton]. }
  pose proof within_limit_empty as Hempty.
  unfold parse_process_char, start_field in Hpc.
  repeat case_match; simplify_eq; cbn; try done;
    repeat match goal with
    | H : option_map _ ?o = Some _ |- _ =>
        destruct o eqn:?; cbn in H; simplify_eq
    | H : parse_add_char _ _ = Some _ |- _ =>
        apply parse_add_char_limit in H as [Hfields ?]; cbn in Hfields |- *;
        try rewrite Hfields
    end; done.
Qed.

Lemma at_end_of_input_limit (self : ReaderObj) :
  Forall within_limit (fields self) -> within_limit (field self) ->
  Forall (Forall within_limit) (at_end_of_input self).
Proof.
  intros Hfs Hf. unfold at_end_of_input. destruct (_ || _); [|done].
  apply Forall_singleton. cbn. apply Forall_app. split; [done | by apply Forall_singleton].
Qed.

Lemma reader_text_limit (text : string) : forall (self : ReaderObj) (m : bool) (rows : list (list string)),
  reader_text self m text = Some rows ->
  Forall within_limit (fields self) -> within_limit (field self) ->
  Forall (Forall within_limit) rows.
Proof.
  induction text as [|c rest IH]; intros self m rows; cbn [reader_text].
  - destruct m.
    + destruct (parse_process_char self EOL) as [s2|] eqn:Heol; [|done].
      intros Hrows Hfs Hf.
      destruct (parse_process_char_limit _ _ _ Heol Hfs Hf) as [Hfs2 Hf2].
      destruct (decide (state s2 = START_RECORD)); injection Hrows as <-.
      * by apply Forall_singleton.
      * by apply at_end_of_input_limit.
    + intros [= <-] Hfs Hf. by apply at_end_of_input_limit.
  - destruct (parse_process_char self (Chr c)) as [s1|] eqn:Hpc; [|done].
    intros Hrows Hfs Hf.
    destruct (parse_process_char_limit _ _ _ Hpc Hfs Hf) as [Hfs1 Hf1].
    destruct (Ascii.eqb c LF); [|by eapply IH].
    destruct (parse_process_char s1 EOL) as [s2|] eqn:Heol; [|done].
    destruct (parse_process_char_limit _ _ _ Heol Hfs1 Hf1) as [Hfs2 Hf2].
    destruct (decide (state s2 = START_RECORD)); [|by eapply IH].
    destruct (reader_text parse_reset false rest) as [rows'|] eqn:Hrest; [|done].
    injection Hrows as <-. apply Forall_cons. split; [done|].
    eapply IH; [done | done | apply within_limit_empty].
Qed.

Lemma reader_limit (text : string) (rows : list (list string)) :
  reader text = Some rows -> Forall (Forall within_limit) rows.
Proof.
  rewrite reader_reader_text. intros Hrows.
  eapply reader_text_limit; [done | done | apply within_limit_empty].
Qed.

(** ** Dictionaries built by [dict_update] *)

Section DictUpdateFacts.
Context {K V : Type} `{EqDecision K}.
Implicit Types (d : list (K * V)) (k : K) (v : V).

Lemma dict_keys_set d k v :
  dict_keys (dict_set d k v)
  = if decide (k ∈ dict_keys d) then dict_keys d else dict_keys d ++ [k].
Proof.
  destruct (decide (k ∈ dict_keys d)).
  - by apply dict_keys_set_mem.
  - by apply dict_keys_set_new.
Qed.

(** The keys after an update depend on the keys only. *)
Lemma dict_keys_update_congr (items items' : list (K * V)) : forall d d',
  dict_keys d = dict_keys d' ->
  map fst items = map fst items' ->
  dict_keys (dict_update d items) = dict_keys (dict_update d' items').
Proof.
  unfold dict_update. revert items'.
  induction items as [|[k v] items IH]; intros [|[k' v'] items'] d d' Hd Hitems;
    try done.
  injection Hitems as -> Hitems. cbn [fold_left]. apply IH; [|done].
  cbn [fst snd]. rewrite !dict_keys_set, Hd. done.
Qed.

Lemma elem_of_dict_set d k v (kv : K * V) :
  kv ∈ dict_set d k v -> kv ∈ d \/ kv = (k, v).
Proof.
  induction d as [|[k0 v0] d IH]; cbn [dict_set].
  - intros ->%list_elem_of_singleton. by right.
  - destruct (decide (k0 = k)) as [->|].
    + intros [->|Hin]%elem_of_cons; [by right|]. left. by apply list_elem_of_further.
    + intros [->|Hin]%elem_of_cons; [left; apply list_elem_of_here|].
      destruct (IH Hin) as [?|?]; [left; by apply list_elem_of_further | by right].
Qed.

(** Every entry after an update was there before or is one of the items. *)
Lemma elem_of_dict_update (items : list (K * V)) : forall d (kv : K * V),
  kv ∈ dict_update d items -> kv ∈ d \/ kv ∈ items.
Proof.
  unfold dict_update.
  induction items as [|[k v] items IH]; intros d kv; cbn [fold_left]; [by left|].
  intros [Hin|Hin]%IH.
  - apply elem_of_dict_set in Hin as [?| ->]; [by left|]. right. apply list_elem_of_here.
  - right. by apply list_elem_of_further.
Qed.

Lemma dict_set_nonempty d k v : dict_set d k v <> [].
Proof. destruct d as [|[k0 v0] d]; cbn [dict_set]; [done|]. by destruct (decide (k0 = k)). Qed.

Lemma dict_update_nonempty (items : list (K * V)) : forall d,
  d <> [] \/ items <> [] -> dict_update d items <> [].
Proof.
  unfold dict_update.
  induction items as [|[k v] items IH]; intros d Hne; cbn [fold_left].
  - by destruct Hne.
  - apply IH. left. apply dict_set_nonempty.
Qed.

Lemma dict_update_app d (items1 items2 : list (K * V)) :
  dict_update (dict_update d items1) items2 = dict_update d (items1 ++ items2).
Proof. unfold dict_update. by rewrite fold_left_app. Qed.

(** Items with distinct new keys are appended in order. *)
Lemma dict_update_fresh (items : list (K * V)) : forall d,
  NoDup (dict_keys d ++ map fst items) ->
  dict_update d items = d ++ items.
Proof.
  unfold dict_update.
  induction items as [|[k v] items IH]; intros d Hnd; cbn [fold_left].
  - by rewrite app_nil_r.
  - cbn [map fst] in Hnd. cbn [fst snd].
    assert (k ∉ dict_keys d) as Hk.
    { apply NoDup_app in Hnd as (_ & Hdisj & _). intros Hin.
      apply (Hdisj k Hin). apply list_elem_of_here. }
    assert (dict_set d k v = d ++ [(k, v)]) as ->.
    { clear -Hk. induction d as [|[k0 v0] d IHd]; cbn [dict_set]; [done|].
      cbn in Hk. apply not_elem_of_cons in Hk as [Hne Hk].
      rewrite decide_False by done. cbn. f_equal. by apply IHd. }
    rewrite IH.
    + by rewrite <- app_assoc.
    + unfold dict_keys. rewrite map_app. cbn [map fst]. by rewrite <- app_assoc.
Qed.

(** Reading every key of a dictionary, in order, gives its values. *)
Lemma map_dict_get_keys d (x : V) :
  NoDup (dict_keys d) ->
  map (fun k => default x (dict_get d k)) (dict_keys d) = map snd d.
Proof.
  induction d as [|[k v] d IH]; cbn [dict_keys map fst snd]; [done|].
  intros [Hk Hnd]%NoDup_cons. cbn [dict_get]. rewrite decide_True by done.
  cbn [default]. f_equal. rewrite <- IH by done.
  apply map_ext_in. intros k' Hk'%list_elem_of_In.
  rewrite decide_False; [done|]. by intros ->.
Qed.
End DictUpdateFacts.

(** ** Records read from rows no longer than the header *)

Lemma DictReader_row_short (fieldnames row : list string) :
  length row <= length fieldnames ->
  DictReader_row fieldnames row = dict_update [] (row_items fieldnames row).
Proof.
  intros Hlen. unfold DictReader_row, row_items.
  destruct (Nat.ltb_spec (length fieldnames) (length row)) as [|_]; [lia|].
  destruct (Nat.ltb_spec (length row) (length fieldnames)) as [|Hge].
  - by rewrite dict_update_app.
  - rewrite drop_ge by lia. cbn [map]. by rewrite app_nil_r.
Qed.

Lemma map_fst_row_items (fieldnames : list string) : forall row : list string,
  length row <= length fieldnames ->
  map fst (row_items fieldnames row) = map KStr fieldnames.
Proof.
  unfold row_items.
  induction fieldnames as [|h hs IH]; intros [|r rs] Hlen; cbn in Hlen |- *; try lia.
  - done.
  - f_equal. rewrite map_map. cbn. done.
  - f_equal. apply IH. lia.
Qed.

Lemma dict_keys_DictReader_row_short (fieldnames row : list string) :
  length row <= length fieldnames ->
  dict_keys (DictReader_row fieldnames row) = header_keys fieldnames.
Proof.
  intros Hlen. rewrite DictReader_row_short by done. unfold header_keys.
  apply dict_keys_update_congr; [done|].
  rewrite map_fst_row_items by done. rewrite map_map. done.
Qed.

Lemma dict_keys_DictReader_row_long (fieldnames row : list string) :
  length fieldnames < length row ->
  KNone ∈ dict_keys (DictReader_row fieldnames row).
Proof.
  intros Hlen. unfold DictReader_row.
  destruct (Nat.ltb_spec (length fieldnames) (length row)) as [_|]; [|lia].
  apply dict_mem_true. unfold dict_mem. rewrite dict_get_set. by rewrite decide_True.
Qed.

Lemma dict_keys_clean_empty_values (d : dict) :
  NoDup (dict_keys d) -> dict_keys (clean_empty_values d) = dict_keys d.
Proof.
  intros Hnd. rewrite clean_empty_values_map by done.
  unfold dict_keys. rewrite map_map. done.
Qed.

Lemma elem_of_row_items (fieldnames row : list string) (k : key) (v : value) :
  (k, v) ∈ row_items fieldnames row ->
  (exists h, k = KStr h /\ h ∈ fieldnames) /\
  (v = VNone \/ exists r, v = VStr r /\ r ∈ row).
Proof.
  unfold row_items. intros [Hin|Hin]%elem_of_app.
  - apply elem_of_zip_l in Hin as Hk. apply elem_of_zip_r in Hin as Hv.
    apply list_elem_of_fmap in Hk as (h & -> & Hh).
    apply list_elem_of_fmap in Hv as (r & -> & Hr).
    split; [by exists h | right; by exists r].
  - apply list_elem_of_fmap in Hin as (h & [= -> ->] & Hh).
    split; [|by left]. exists h. split; [done|]. by eapply subseteq_drop.
Qed.

Lemma column_key_header_keys (fieldnames : list string) :
  Forall within_limit fieldnames -> Forall column_key (header_keys fieldnames).
Proof.
  intros Hlim. apply Forall_forall. intros k Hk. unfold header_keys, dict_keys in Hk.
  apply list_elem_of_fmap in Hk as ([k' v] & -> & Hkv). cbn [fst].
  apply elem_of_dict_update in Hkv as [Hkv|Hkv]; [by apply elem_of_nil in Hkv|].
  apply list_elem_of_fmap in Hkv as (h & [= -> ->] & Hh). cbn.
  by eapply Forall_forall in Hlim.
Qed.

Lemma loaded_value_clean (v : value) :
  (v = VNone \/ exists r, v = VStr r /\ within_limit r) -> loaded_value (clean_value v).
Proof.
  intros [-> | (r & -> & Hr)]; [done|]. unfold clean_value. cbn [truthy].
  destruct (String.eqb_spec r EmptyString) as [->|Hne]; cbn; done.
Qed.

(** What [load_data] makes of a row that is no longer than the header. *)
Lemma loaded_record_short (fieldnames row : list string) :
  Forall within_limit row ->
  length row <= length fieldnames ->
  let p := clean_empty_values (DictReader_row fieldnames row) in
  dict_keys p = header_keys fieldnames /\
  NoDup (dict_keys p) /\
  Forall (fun kv => loaded_value kv.2) p.
Proof.
  intros Hrow Hlen p. subst p.
  pose proof (NoDup_DictReader_row fieldnames row) as Hnd.
  rewrite dict_keys_clean_empty_values by done.
  split; [by apply dict_keys_DictReader_row_short|]. split; [done|].
  rewrite clean_empty_values_map by done.
  apply Forall_forall. intros kv Hkv.
  apply list_elem_of_fmap in Hkv as ([k v] & -> & Hkv). cbn [clean_item fst snd].
  apply loaded_value_clean.
  rewrite DictReader_row_short in Hkv by done.
  apply elem_of_dict_update in Hkv as [Hkv|Hkv]; [by apply elem_of_nil in Hkv|].
  apply elem_of_row_items in Hkv as [_ [->|(r & -> & Hr)]]; [by left|].
  right. exists r. split; [done|]. by eapply Forall_forall in Hrow.
Qed.

(** ** Writing such records and reading them back *)

Lemma clean_cell_text (v : value) :
  loaded_value v -> clean_value (VStr (cell_text v)) = v.
Proof.
  destruct v as [|s|l|o]; cbn; try done.
  intros [Hne _]. unfold clean_value. cbn [truthy].
  by destruct (String.eqb_spec s EmptyString).
Qed.

Lemma within_limit_cell_text (v : value) : loaded_value v -> within_limit (cell_text v).
Proof.
  destruct v as [|s|l|o]; cbn [loaded_value cell_text]; [|by intros [_ ?]|done|done].
  intros _. apply within_limit_empty.
Qed.

Lemma dict_get_Some_elem_of (d : dict) (k : key) (v : value) :
  dict_get d k = Some v -> (k, v) ∈ d.
Proof.
  induction d as [|[k' v'] d IH]; cbn [dict_get]; [done|].
  destruct (decide (k' = k)) as [->|].
  - intros [= ->]. apply list_elem_of_here.
  - intros Hget. apply list_elem_of_further. by apply IH.
Qed.

Lemma KStr_header_cells (fieldnames : list key) :
  Forall column_key fieldnames -> map KStr (header_cells fieldnames) = fieldnames.
Proof.
  induction 1 as [|k ks Hk _ IH]; [done|].
  change (map KStr (header_cells (k :: ks)))
    with (KStr (cell_text (key_value k)) :: map KStr (header_cells ks)).
  rewrite IH. by destruct k.
Qed.

Lemma within_limit_header_cells (fieldnames : list key) :
  Forall column_key fieldnames -> Forall within_limit (header_cells fieldnames).
Proof.
  induction 1 as [|k ks Hk _ IH]; [done|].
  change (header_cells (k :: ks)) with (cell_text (key_value k) :: header_cells ks).
  apply Forall_cons. split; [|done]. by destruct k.
Qed.

Lemma within_limit_row_cells (fieldnames : list key) (p : dict) :
  Forall (fun kv => loaded_value kv.2) p -> Forall within_limit (row_cells fieldnames p).
Proof.
  intros Hp. unfold row_cells. apply Forall_forall. intros c Hc.
  apply list_elem_of_fmap in Hc as (k & -> & _).
  destruct (dict_get p k) as [v|] eqn:Hget; cbn [default].
  - apply dict_get_Some_elem_of in Hget.
    eapply Forall_forall in Hp; [|done]. by apply within_limit_cell_text.
  - apply within_limit_empty.
Qed.

Lemma row_cells_own_keys (p : dict) :
  NoDup (dict_keys p) -> row_cells (dict_keys p) p = map (fun kv => cell_text kv.2) p.
Proof.
  intros Hnd. unfold row_cells.
  rewrite <- (map_map (fun k => default (VStr EmptyString) (dict_get p k)) cell_text).
  rewrite map_dict_get_keys by done. by rewrite map_map.
Qed.

Lemma zip_keys_cells (p : dict) :
  zip (dict_keys p) (map VStr (map (fun kv => cell_text kv.2) p))
  = map (fun kv => (kv.1, VStr (cell_text kv.2))) p.
Proof. induction p as [|[k v] p IH]; cbn; [done | by rewrite <- IH]. Qed.

Lemma clean_written_cells (p : dict) :
  Forall (fun kv => loaded_value kv.2) p ->
  map (fun kv => clean_item (kv.1, VStr (cell_text kv.2))) p = p.
Proof.
  induction 1 as [|[k v] p Hv _ IH]; cbn [map]; [done|].
  rewrite IH. unfold clean_item. cbn [fst snd] in Hv |- *.
  by rewrite clean_cell_text.
Qed.

(** One record, written under its own keys and read back under the
    header written from them. *)
Lemma reload_record (p : dict) :
  NoDup (dict_keys p) ->
  Forall column_key (dict_keys p) ->
  Forall (fun kv => loaded_value kv.2) p ->
  clean_empty_values
    (DictReader_row (header_cells (dict_keys p)) (row_cells (dict_keys p) p)) = p.
Proof.
  intros Hnd Hkeys Hvals.
  assert (length (row_cells (dict_keys p) p) = length (header_cells (dict_keys p))) as Hlen.
  { unfold row_cells, header_cells. by rewrite !length_map. }
  assert (DictReader_row (header_cells (dict_keys p)) (row_cells (dict_keys p) p)
          = map (fun kv => (kv.1, VStr (cell_text kv.2))) p) as Hrow.
  { unfold DictReader_row. rewrite Hlen, Nat.ltb_irrefl.
    rewrite KStr_header_cells by done.
    rewrite row_cells_own_keys by done. rewrite zip_keys_cells.
    rewrite dict_update_fresh; [done|].
    cbn [dict_keys map app]. rewrite map_map. cbn [fst]. exact Hnd. }
  rewrite Hrow. rewrite clean_empty_values_map.
  - rewrite map_map. by apply clean_written_cells.
  - unfold dict_keys. rewrite map_map. exact Hnd.
Qed.

(** What is known of every record of a loaded dataset in which no row
    is longer than the header. *)
Lemma loaded_projects_short (fieldnames : list string) (data : list (list string)) (p : dict) :
  Forall (Forall within_limit) data ->
  (forall q, q ∈ map clean_empty_values (DictReader (fieldnames :: data)) ->
             KNone ∉ dict_keys q) ->
  p ∈ map clean_empty_values (DictReader (fieldnames :: data)) ->
  dict_keys p = header_keys fieldnames /\
  NoDup (dict_keys p) /\
  Forall (fun kv => loaded_value kv.2) p /\
  fieldnames <> [].
Proof.
  intros Hdata Hshort Hp. specialize (Hshort p Hp).
  cbn [DictReader] in Hp.
  apply list_elem_of_fmap in Hp as (raw & -> & Hraw).
  apply list_elem_of_fmap in Hraw as (row & -> & Hrow).
  apply list_elem_of_In, filter_In in Hrow as [Hrow Hblank].
  apply list_elem_of_In in Hrow.
  assert (length row <= length fieldnames) as Hlen.
  { destruct (Nat.le_gt_cases (length row) (length fieldnames)) as [|Hlong]; [done|].
    exfalso. apply Hshort.
    rewrite dict_keys_clean_empty_values by apply NoDup_DictReader_row.
    by apply dict_keys_DictReader_row_long. }
  assert (Forall within_limit row) as Hlim by (by eapply Forall_forall in Hdata).
  destruct (loaded_record_short fieldnames row Hlim Hlen) as (Hk & Hnd & Hv).
  split; [done|]. split; [done|]. split; [done|].
  intros ->. destruct row; [done | cbn in Hlen; lia].
Qed.

Lemma header_keys_nonempty (fieldnames : list string) :
  fieldnames <> [] -> header_keys fieldnames <> [].
Proof.
  intros Hne Hk. unfold header_keys, dict_keys in Hk. apply map_eq_nil in Hk.
  revert Hk. apply dict_update_nonempty. right. by destruct fieldnames.
Qed.

Lemma filter_row_cells (fieldnames : list key) (projects : list dict) :
  fieldnames <> [] ->
  List.filter (fun r => negb (is_blank r)) (map (row_cells fieldnames) projects)
  = map (row_cells fieldnames) projects.
Proof.
  intros Hne. induction projects as [|p ps IH]; cbn [map List.filter]; [done|].
  rewrite IH. unfold row_cells at 1. by destruct fieldnames.
Qed.

(** C4, as the code has it. A dataset that loads to a non-empty
    collection in which no record has the overflow key of the reader
    (no data row has more cells than the header row) is saved, and
    loading what was saved yields the same records. *)
Theorem load_save_load_roundtrip (st : store) (projects : list dict) :
  load_data st = (Ok projects, st) ->
  projects <> [] ->
  (forall p, p ∈ projects -> KNone ∉ dict_keys p) ->
  exists text' : string,
    save_data projects st = (Ok tt, Some text') /\
    load_data (Some text') = (Ok projects, Some text').
Proof.
  intros Hload Hne Hshort.
  apply load_data_inv in Hload as (_ & text & rows & -> & Hrows & ->).
  destruct rows as [|fieldnames data]; [done|].
  apply reader_limit in Hrows as Hlim. apply Forall_cons in Hlim as [Hnames Hdata].
  pose proof (fun p => loaded_projects_short fieldnames data p Hdata Hshort) as Hfacts.
  set (fields_keys := header_keys fieldnames) in *.
  remember (map clean_empty_values (DictReader (fieldnames :: data))) as projects eqn:Hprojects.
  clear Hprojects Hshort Hdata.
  destruct projects as [|first rest]; [done|]. clear Hne.
  destruct (Hfacts first (list_elem_of_here _ _)) as (Hfirst & _ & _ & Hheader).
  assert (Forall column_key fields_keys) as Hkeys by (by apply column_key_header_keys).
  assert (fields_keys <> []) as Hcols by (by apply header_keys_nonempty).
  rewrite save_data_cons, Hfirst.
  assert (forallb (within fields_keys) rest = true) as ->.
  { apply forallb_forall. intros p Hp%list_elem_of_In. apply within_spec.
    destruct (Hfacts p (list_elem_of_further _ _ _ Hp)) as (-> & _). done. }
  eexists. split; [reflexivity|].
  unfold load_data, try_except, bind, download_blob, ret.
  rewrite reader_writerows.
  - cbn [DictReader]. rewrite filter_row_cells by done.
    rewrite !map_map. do 2 f_equal. rewrite <- (map_id (first :: rest)) at 2.
    apply map_ext_in. intros p Hp%list_elem_of_In.
    destruct (Hfacts p Hp) as (Hk & Hnd & Hv & _).
    rewrite <- Hk. apply reload_record; [done| by rewrite Hk |done].
  - apply Forall_cons. split; [by apply within_limit_header_cells|].
    apply Forall_forall. intros row Hrow.
    apply list_elem_of_fmap in Hrow as (p & -> & Hp).
    apply within_limit_row_cells. by destruct (Hfacts p Hp) as (_ & _ & ? & _).
Qed.

Lemma load_save_load_roundtrip_witness :
  exists text' : string,
    save_data [oak_st] (Some oak_st_csv) = (Ok tt, Some text') /\
    load_data (Some text') = (Ok [oak_st], Some text').
Proof.
  apply (load_save_load_roundtrip (Some oak_st_csv) [oak_st]).
  - vm_compute. reflexivity.
  - discriminate.
  - intros p Hp. apply list_elem_of_singleton in Hp as ->. by_compute.
Defined.

(** C4, refuted as stated: the dataset loads to one record (a collection
    with a common field set), whose extra cell sits under the key [None]
    as a list; saved and loaded again, the record has a column with the
    empty name instead, holding the text of that list. *)
Lemma load_save_load_overflow_differs :
  let st := Some ragged_csv in
  let reloaded := [[(KStr "a", VStr "1"); (KStr EmptyString, VStr "['2']")]] in
  load_data st = (Ok [ragged_record], st) /\
  (forall p q, p ∈ [ragged_record] -> q ∈ [ragged_record] -> dict_keys p = dict_keys q) /\
  save_data [ragged_record] st = (Ok tt, Some ragged_saved_csv) /\
  load_data (Some ragged_saved_csv) = (Ok reloaded, Some ragged_saved_csv) /\
  reloaded <> [ragged_record] /\
  (forall q, q ∈ reloaded -> dict_get q KNone <> dict_get ragged_record KNone).
Proof.
  split; [|split; [|split; [|split; [|split]]]].
  - vm_compute. reflexivity.
  - by intros p q ->%list_elem_of_singleton ->%list_elem_of_singleton.
  - vm_compute. reflexivity.
  - vm_compute. reflexivity.
  - discriminate.
  - intros q Hq. apply list_elem_of_singleton in Hq as ->. by_compute.
Qed.

(** * Further properties of the handlers *)

(** ** Matching a record against a pair *)

Lemma eq_str_true (v : value) (s : string) : eq_str v s = true <-> v = VStr s.
Proof.
  destruct v as [|s'|l|o]; cbn; try (split; congruence).
  rewrite String.eqb_eq. split; congruence.
Qed.

Lemma matches_true (p : dict) (category project_name : string) :
  matches p category project_name = Ok true <-> has_pair p category project_name.
Proof.
  unfold matches, has_pair.
  destruct (dict_get p (KStr "Category")) as [c|]; [|split; [done | by intros [? _]]].
  destruct (eq_str c category) eqn:Hc.
  - apply eq_str_true in Hc as ->.
    destruct (dict_get p (KStr "Project Name")) as [n|]; [|split; [done | by intros [_ ?]]].
    split.
    + intros [= Hn]. apply eq_str_true in Hn as ->. done.
    + intros [_ [= ->]]. f_equal. by apply eq_str_true.
  - split; [done|]. intros [[= ->] _].
    assert (eq_str (VStr category) category = true) by (by apply eq_str_true). congruence.
Qed.

Lemma find_project_None (projects : list dict) (category project_name : string) :
  find_project projects category project_name = Ok None ->
  forall p, p ∈ projects -> matches p category project_name = Ok false.
Proof.
  induction projects as [|q rest IH]; cbn [find_project]; intros Hfind p Hp.
  - by apply elem_of_nil in Hp.
  - destruct (matches q category project_name) as [[|]|e] eqn:Hq; try done.
    apply elem_of_cons in Hp as [->|Hp]; [done | by apply IH].
Qed.

Lemma matches_raises (p : dict) (category project_name : string) (e : exn) :
  matches p category project_name = Raise e -> e = KeyError.
Proof.
  unfold matches. destruct (dict_get p (KStr "Category")) as [c|]; [|by intros [= <-]].
  destruct (eq_str c category); [|done].
  destruct (dict_get p (KStr "Project Name")); [done | by intros [= <-]].
Qed.

Lemma find_project_raises (projects : list dict) (category project_name : string) (e : exn) :
  find_project projects category project_name = Raise e -> e = KeyError.
Proof.
  induction projects as [|q rest IH]; cbn [find_project]; [done|].
  destruct (matches q category project_name) as [[|]|e'] eqn:Hq; [done|done|].
  intros [= <-]. by eapply matches_raises.
Qed.

(** What [find_project] finds is the record at the index [project_index]
    gives. *)
Lemma find_project_Some (projects : list dict) (category project_name : string) (p : dict) :
  find_project projects category project_name = Ok (Some p) ->
  forall z : Z,
  exists i : nat,
    projects !! i = Some p /\
    matches p category project_name = Ok true /\
    (forall (j : nat) (q : dict), j < i -> projects !! j = Some q ->
                                  matches q category project_name = Ok false) /\
    project_index_from z projects category project_name = Ok (z + Z.of_nat i)%Z.
Proof.
  induction projects as [|q rest IH]; cbn [find_project project_index_from]; [done|].
  destruct (matches q category project_name) as [[|]|e] eqn:Hq; [| |done].
  - intros [= ->] z. exists 0. split; [done|]. split; [done|]. split; [intros; lia|].
    f_equal. lia.
  - intros Hfind z. destruct (IH Hfind (z + 1)%Z) as (i & Hi & Hm & Hbefore & Hidx).
    exists (S i). split; [done|]. split; [done|]. split.
    + intros [|j] r Hj Hr; cbn in Hr; [by injection Hr as <- | apply (Hbefore j); [lia|done]].
    + rewrite Hidx. f_equal. lia.
Qed.

(** ** GET /projects/{category}/{name} *)

(** X1. When the read of one project succeeds, the store is as before and
    the record returned carries the pair, is the first record of the
    loaded dataset that does, and sits at the index at which
    [update_project] patches. *)
Theorem get_project_details_first_match
        (category project_name : string) (st st' : store) (p : dict) :
  get_project_details category project_name st = (Ok p, st') ->
  st' = st /\
  exists (projects : list dict) (i : nat),
    load_data st = (Ok projects, st) /\
    projects !! i = Some p /\
    has_pair p category project_name /\
    (forall (j : nat) (q : dict), j < i -> projects !! j = Some q ->
                                  ~ has_pair q category project_name) /\
    project_index projects category project_name = Ok (Z.of_nat i).
Proof.
  unfold get_project_details, bind, lift.
  destruct (load_data st) as [[projects|e] st1] eqn:Hload; [|done].
  apply load_data_inv in Hload as Hst. destruct Hst as [-> _].
  destruct (find_project projects category project_name) as [[q|]|e] eqn:Hfind; [| |done].
  - unfold ret. intros [= -> <-]. split; [done|].
    destruct (find_project_Some _ _ _ _ Hfind 0%Z) as (i & Hi & Hm & Hbefore & Hidx).
    exists projects, i. split; [done|]. split; [done|].
    split; [by apply matches_true|]. split; [|done].
    intros j q Hj Hq Hpair. apply matches_true in Hpair.
    rewrite (Hbefore j q Hj Hq) in Hpair. done.
  - done.
Qed.

Lemma get_project_details_first_match_witness :
  (Some three_projects_csv : store) = Some three_projects_csv /\
  exists (projects : list dict) (i : nat),
    load_data (Some three_projects_csv) = (Ok projects, Some three_projects_csv) /\
    projects !! i = Some elm_st /\
    has_pair elm_st "Rezoning" "Elm St" /\
    (forall (j : nat) (q : dict), j < i -> projects !! j = Some q ->
                                  ~ has_pair q "Rezoning" "Elm St") /\
    project_index projects "Rezoning" "Elm St" = Ok (Z.of_nat i).
Proof.
  apply (get_project_details_first_match "Rezoning" "Elm St" (Some three_projects_csv)
                                         (Some three_projects_csv) elm_st).
  vm_compute. reflexivity.
Defined.

(** X2. The read of one project answers 404 exactly when the dataset
    loads and every record has the column [Category] and does not carry
    the pair. *)
Theorem get_project_details_404_iff (category project_name : string) (st : store) :
  (get_project_details category project_name st).1 = Raise (HTTPException 404) <->
  exists projects : list dict,
    (load_data st).1 = Ok projects /\
    forall p, p ∈ projects -> matches p category project_name = Ok false.
Proof.
  unfold get_project_details, bind, lift.
  destruct (load_data st) as [[projects|e] st1] eqn:Hload; cbn [fst].
  - destruct (find_project projects category project_name) as [[q|]|e] eqn:Hfind; cbn [fst].
    + split; [done|]. intros (ps & [= <-] & Habsent).
      rewrite find_project_absent in Hfind by done. done.
    + split; [|done]. intros _. exists projects. split; [done|].
      by apply find_project_None.
    + pose proof (find_project_raises _ _ _ _ Hfind) as ->.
      split; [done|]. intros (ps & [= <-] & Habsent).
      rewrite find_project_absent in Hfind by done. done.
  - pose proof (load_data_store st) as Hst. rewrite Hload in Hst. cbn in Hst. subst st1.
    split.
    + intros [= ->]. revert Hload.
      unfold load_data, try_except, bind, download_blob, raise, ret.
      destruct st as [text|]; [destruct (Csv.reader text)|]; done.
    + by intros (ps & [=] & _).
Qed.

(** ** GET /projects/{category} and GET /projects *)

(** [get_projects] returns what [load_data] returns and raises what it
    raises. *)
Lemma get_projects_load_data (st : store) : get_projects st = load_data st.
Proof.
  unfold get_projects, try_except, bind, ret, raise.
  by destruct (load_data st) as [[projects|e] st1].
Qed.

Lemma in_category_filter (projects : list dict) (category : string) (found : list dict) :
  in_category projects category = Ok found ->
  found = filter (fun p => dict_get p (KStr "Category") = Some (VStr category)) projects.
Proof.
  revert found. induction projects as [|p rest IH]; cbn [in_category]; intros found.
  - by intros [= <-].
  - destruct (dict_get p (KStr "Category")) as [c|] eqn:Hc; [|done].
    destruct (in_category rest category) as [found'|e]; [|done].
    intros [= <-]. rewrite (IH found' eq_refl). rewrite filter_cons, Hc.
    destruct (eq_str c category) eqn:Heq.
    + apply eq_str_true in Heq as ->. by rewrite decide_True.
    + rewrite decide_False; [done|]. intros [= ->].
      assert (eq_str (VStr category) category = true) by (by apply eq_str_true). congruence.
Qed.

Lemma in_category_raises (projects : list dict) (category : string) :
  (exists p, p ∈ projects /\ dict_get p (KStr "Category") = None) ->
  in_category projects category = Raise KeyError.
Proof.
  intros (p & Hp & Hnone). induction projects as [|q rest IH]; cbn [in_category].
  - by apply elem_of_nil in Hp.
  - destruct (dict_get q (KStr "Category")) as [c|] eqn:Hc; [|done].
    apply elem_of_cons in Hp as [->|Hp]; [congruence|]. by rewrite IH.
Qed.

(** X3. When the read by category succeeds, the store is as before and
    the answer is the loaded dataset filtered on the column [Category]:
    the records of that category, all of them, in the order of the
    dataset. *)
Theorem get_projects_by_category_filter (category : string) (st st' : store) (found : list dict) :
  get_projects_by_category category st = (Ok found, st') ->
  st' = st /\
  exists projects : list dict,
    load_data st = (Ok projects, st) /\
    found = filter (fun p => dict_get p (KStr "Category") = Some (VStr category)) projects.
Proof.
  unfold get_projects_by_category, bind, lift.
  destruct (load_data st) as [[projects|e] st1] eqn:Hload; [|done].
  apply load_data_inv in Hload as Hst. destruct Hst as [-> _].
  destruct (in_category projects category) as [found'|e] eqn:Hin; [|done].
  intros [= -> <-]. split; [done|]. exists projects. split; [done|].
  by apply in_category_filter.
Qed.

Lemma get_projects_by_category_filter_witness :
  (Some three_projects_csv : store) = Some three_projects_csv /\
  exists projects : list dict,
    load_data (Some three_projects_csv) = (Ok projects, Some three_projects_csv) /\
    [oak_st; elm_st]
    = filter (fun p => dict_get p (KStr "Category") = Some (VStr "Rezoning")) projects.
Proof.
  apply (get_projects_by_category_filter "Rezoning" (Some three_projects_csv)
                                         (Some three_projects_csv) [oak_st; elm_st]).
  vm_compute. reflexivity.
Defined.

(** ** DELETE /projects/{category}/{name} *)

Lemma without_project_filter (projects : list dict) (category project_name : string)
      (kept : list dict) :
  without_project projects category project_name = Ok kept ->
  kept = filter (fun p => ~ has_pair p category project_name) projects /\
  length kept <= length projects.
Proof.
  revert kept. induction projects as [|p rest IH]; cbn [without_project]; intros kept.
  - by intros [= <-].
  - destruct (matches p category project_name) as [b|e] eqn:Hm; [|done].
    destruct (without_project rest category project_name) as [kept'|e]; [|done].
    destruct (IH kept' eq_refl) as [-> Hlen].
    intros [= <-]. rewrite filter_cons. destruct b.
    + apply matches_true in Hm. rewrite decide_False by (by intros Hn; apply Hn).
      split; [done|]. cbn [length]. lia.
    + rewrite decide_True.
      * split; [done|]. cbn [length]. lia.
      * intros Hpair. apply matches_true in Hpair. congruence.
Qed.

Lemma without_project_raises (projects : list dict) (category project_name : string) (e : exn) :
  without_project projects category project_name = Raise e -> e = KeyError.
Proof.
  induction projects as [|p rest IH]; cbn [without_project]; [done|].
  destruct (matches p category project_name) as [b|e'] eqn:Hm.
  - destruct (without_project rest category project_name) as [kept'|e']; [done|].
    intros [= <-]. by apply IH.
  - intros [= <-]. by eapply matches_raises.
Qed.

Lemma delete_project_ok (category project_name : string) (st st' : store) (response : message) :
  delete_project category project_name st = (Ok response, st') ->
  exists projects kept : list dict,
    load_data st = (Ok projects, st) /\
    without_project projects category project_name = Ok kept /\
    length kept <> length projects /\
    save_data kept st = (Ok tt, st').
Proof.
  unfold delete_project, try_except, bind, lift.
  destruct (load_data st) as [[projects|e] st1] eqn:Hload; [|done].
  apply load_data_inv in Hload as Hst. destruct Hst as [-> _].
  destruct (without_project projects category project_name) as [kept|e] eqn:Hkept; [|done].
  destruct (Nat.eqb_spec (length kept) (length projects)) as [|Hne]; [done|].
  destruct (save_data kept st) as [[[]|e] st2] eqn:Hsave; [|done].
  unfold ret. intros [= <- <-]. by exists projects, kept.
Qed.

(** X4. When DELETE succeeds, the collection handed to [save_data] is
    the loaded dataset without the records that carry the pair: every
    such record is removed, not only the first, the others stay in
    order, and at least one record was removed. *)
Theorem delete_project_removes_every_match
        (category project_name : string) (st st' : store) (response : message) :
  delete_project category project_name st = (Ok response, st') ->
  exists projects : list dict,
    load_data st = (Ok projects, st) /\
    let kept := filter (fun p => ~ has_pair p category project_name) projects in
    length kept < length projects /\
    save_data kept st = (Ok tt, st').
Proof.
  intros (projects & kept & Hload & Hkept & Hne & Hsave)%delete_project_ok.
  destruct (without_project_filter _ _ _ _ Hkept) as [Hfilter Hlen].
  exists projects. split; [done|].
  cbn zeta. rewrite <- Hfilter. split; [lia | done].
Qed.

Lemma delete_project_removes_every_match_witness :
  let st := Some three_projects_csv in
  let st' := (delete_project "Rezoning" "Oak St" st).2 in
  exists projects : list dict,
    load_data st = (Ok projects, st) /\
    let kept := filter (fun p => ~ has_pair p "Rezoning" "Oak St") projects in
    length kept < length projects /\
    save_data kept st = (Ok tt, st').
Proof.
  intros st st'.
  apply (delete_project_removes_every_match "Rezoning" "Oak St" st st'
                                            "Project deleted successfully").
  vm_compute. reflexivity.
Defined.

Lemma without_project_all (projects : list dict) (category project_name : string) :
  (forall p, p ∈ projects -> has_pair p category project_name) ->
  without_project projects category project_name = Ok [].
Proof.
  induction projects as [|p rest IH]; cbn [without_project]; intros Hall; [done|].
  assert (matches p category project_name = Ok true) as ->.
  { apply matches_true, Hall, list_elem_of_here. }
  rewrite IH; [done|]. intros q Hq. by apply Hall, list_elem_of_further.
Qed.

(** X5. When every record of a non-empty dataset carries the pair,
    DELETE answers success and the blob is left as it was: the
    collection that remains is empty, and [save_data] does nothing on
    an empty collection. *)
Theorem delete_project_all_records_keeps_blob
        (category project_name : string) (projects : list dict) (st : store) :
  load_data st = (Ok projects, st) ->
  projects <> [] ->
  (forall p, p ∈ projects -> has_pair p category project_name) ->
  delete_project category project_name st = (Ok "Project deleted successfully", st).
Proof.
  intros Hload Hne Hall. unfold delete_project, try_except, bind, lift.
  rewrite Hload, without_project_all by done.
  destruct projects as [|p rest]; [done|]. reflexivity.
Qed.

Lemma delete_project_all_records_keeps_blob_witness :
  delete_project "Rezoning" "Oak St" (Some oak_st_twice_csv)
  = (Ok "Project deleted successfully", Some oak_st_twice_csv).
Proof.
  apply (delete_project_all_records_keeps_blob "Rezoning" "Oak St" [oak_st; oak_st]).
  - vm_compute. reflexivity.
  - discriminate.
  - intros p Hp. apply elem_of_cons in Hp as [->|Hp%list_elem_of_singleton];
      [|subst p]; split; reflexivity.
Defined.

(** ** The write handlers fail as a whole *)

Lemma load_data_raises (st st' : store) (e : exn) :
  load_data st = (Raise e, st') -> e = HTTPException 500 /\ st' = st.
Proof.
  unfold load_data, try_except, bind, download_blob, raise, ret.
  destruct st as [text|]; [destruct (Csv.reader text)|]; by intros [= <- <-].
Qed.



(** ** The update loop, field by field *)

Lemma merge_patch_cons (project : dict) (k : key) (v : value) (rest : dict) :
  merge_patch project ((k, v) :: rest)
  = merge_patch (if dict_mem k project then dict_set project k v else project) rest.
Proof. reflexivity. Qed.

(** X7. After the update loop, with a body whose keys are distinct (a
    JSON object), the record has the fields it had, in the same order; a
    field named in the body holds the body's value, any other field the
    value it had. *)
Theorem merge_patch_fields (project_data : dict) : forall (project : dict) (k : key),
  NoDup (dict_keys project_data) ->
  dict_keys (merge_patch project project_data) = dict_keys project /\
  dict_get (merge_patch project project_data) k
  = match dict_get project k with
    | None => None
    | Some v => Some (default v (dict_get project_data k))
    end.
Proof.
  induction project_data as [|[k0 v0] rest IH]; intros project k Hnd.
  - split; [done|]. cbn. by destruct (dict_get project k).
  - cbn [dict_keys map fst] in Hnd. apply NoDup_cons in Hnd as [Hk0 Hnd].
    rewrite merge_patch_cons.
    destruct (IH (if dict_mem k0 project then dict_set project k0 v0 else project) k Hnd)
      as [Hkeys Hget].
    rewrite Hkeys, Hget. clear IH Hkeys Hget.
    cbn [dict_get]. destruct (dict_mem k0 project) eqn:Hmem.
    + split; [apply dict_keys_set_mem; by apply dict_mem_true|].
      rewrite dict_get_set. destruct (decide (k0 = k)) as [->|Hne].
      * apply dict_get_None in Hk0. rewrite Hk0. cbn.
        unfold dict_mem in Hmem. by destruct (dict_get project k).
      * done.
    + split; [done|]. destruct (decide (k0 = k)) as [->|Hne]; [|done].
      unfold dict_mem in Hmem. by destruct (dict_get project k).
Qed.

Lemma merge_patch_fields_witness :
  let project_data := [(KStr "Comments Due Date", VStr "03/15/2025"); (KStr "NewField", VStr "x")] in
  dict_keys (merge_patch oak_st project_data) = dict_keys oak_st /\
  dict_get (merge_patch oak_st project_data) (KStr "Comments Due Date")
  = match dict_get oak_st (KStr "Comments Due Date") with
    | None => None
    | Some v => Some (default v (dict_get project_data (KStr "Comments Due Date")))
    end.
Proof.
  intros project_data.
  apply (merge_patch_fields project_data oak_st (KStr "Comments Due Date")).
  by_compute.
Defined.

(** ** The fields of a loaded record *)

Lemma elem_of_dict_keys_update {K V : Type} `{EqDecision K} (items : list (K * V)) :
  forall (d : list (K * V)) (k : K),
    k ∈ dict_keys (dict_update d items) <-> k ∈ dict_keys d \/ k ∈ map fst items.
Proof.
  unfold dict_update.
  induction items as [|[k0 v0] items IH]; intros d k; cbn [fold_left map fst snd].
  - split; [by left | intros [?|?%elem_of_nil]; done].
  - rewrite IH, dict_keys_set, elem_of_cons.
    destruct (decide (k0 ∈ dict_keys d)) as [Hin|Hin].
    + split; [intros [?|?]; auto | intros [?|[->|?]]; auto].
    + rewrite elem_of_app, list_elem_of_singleton.
      split; [intros [[?|?]|?]; auto | intros [?|[?|?]]; auto].
Qed.

Lemma elem_of_header_keys (fieldnames : list string) (k : key) :
  k ∈ header_keys fieldnames <-> exists x, k = KStr x /\ x ∈ fieldnames.
Proof.
  unfold header_keys. rewrite elem_of_dict_keys_update, map_map. cbn [fst dict_keys map].
  split.
  - intros [?%elem_of_nil|Hk]; [done|]. by apply list_elem_of_fmap in Hk.
  - intros Hk. right. by apply list_elem_of_fmap.
Qed.

Lemma NoDup_header_keys (fieldnames : list string) : NoDup (header_keys fieldnames).
Proof. apply NoDup_dict_update. apply NoDup_nil_2. Qed.

Lemma header_keys_distinct (fieldnames : list string) :
  NoDup fieldnames -> header_keys fieldnames = map KStr fieldnames.
Proof.
  intros Hnd. unfold header_keys. rewrite dict_update_fresh.
  - cbn [app]. unfold dict_keys. rewrite map_map. done.
  - cbn [dict_keys map app]. rewrite map_map. cbn [fst]. by apply (NoDup_fmap_2 KStr).
Qed.

Lemma map_fst_zip_long (fieldnames : list string) : forall row : list string,
  length fieldnames <= length row ->
  map fst (zip (map KStr fieldnames) (map VStr row)) = map KStr fieldnames.
Proof.
  induction fieldnames as [|h hs IH]; intros [|r rs] Hlen; cbn in Hlen |- *; try done; try lia.
  f_equal. apply IH. lia.
Qed.

Lemma dict_keys_DictReader_row (fieldnames row : list string) :
  dict_keys (DictReader_row fieldnames row)
  = header_keys fieldnames ++ (if length fieldnames <? length row then [KNone] else []).
Proof.
  destruct (Nat.ltb_spec (length fieldnames) (length row)) as [Hlong|Hshort].
  - unfold DictReader_row. rewrite (proj2 (Nat.ltb_lt _ _) Hlong).
    assert (dict_keys (dict_update ([] : dict) (zip (map KStr fieldnames) (map VStr row)))
            = header_keys fieldnames) as Hkeys.
    { unfold header_keys. apply dict_keys_update_congr; [done|].
      rewrite map_fst_zip_long by lia. by rewrite map_map. }
    rewrite dict_keys_set_new; [by rewrite Hkeys|].
    rewrite Hkeys. intros (x & [=] & _)%elem_of_header_keys.
  - rewrite app_nil_r. by apply dict_keys_DictReader_row_short.
Qed.

(** X8. The records of a loaded dataset are the data rows that are not
    blank, one record per row, in order.  The keys of a record are
    distinct: the column names of the header row, each name once, in the
    order of the header, followed by the key [None] exactly when the row
    of that record has more cells than the header.  When no name is
    repeated in the header these names are the header itself. *)
Theorem load_data_record_fields
        (text : string) (fieldnames : list string) (data : list (list string))
        (projects : list dict) (st' : store) :
  load_data (Some text) = (Ok projects, st') ->
  Csv.reader text = Some (fieldnames :: data) ->
  Forall2 (fun (p : dict) (row : list string) =>
             NoDup (dict_keys p) /\
             dict_keys p
             = header_keys fieldnames
               ++ (if length fieldnames <? length row then [KNone] else []))
          projects
          (filter (fun row => row <> []) data) /\
  NoDup (header_keys fieldnames) /\
  (forall k, k ∈ header_keys fieldnames <-> exists x, k = KStr x /\ x ∈ fieldnames) /\
  (NoDup fieldnames -> header_keys fieldnames = map KStr fieldnames).
Proof.
  intros Hload Hrows.
  apply load_data_inv in Hload as (_ & text' & rows & [= <-] & Hrows' & ->).
  rewrite Hrows in Hrows'. injection Hrows' as <-.
  split; [|split; [apply NoDup_header_keys|
           split; [apply elem_of_header_keys | apply header_keys_distinct]]].
  cbn [DictReader]. clear Hrows.
  induction data as [|row data IH]; cbn [List.filter map]; [constructor|].
  rewrite filter_cons. destruct row as [|c row]; cbn [is_blank negb].
  - rewrite decide_False by (by intros H; apply H). exact IH.
  - rewrite decide_True by done. cbn [map]. constructor; [|exact IH].
    rewrite dict_keys_clean_empty_values by apply NoDup_DictReader_row.
    split; [apply NoDup_DictReader_row | apply dict_keys_DictReader_row].
Qed.

Lemma load_data_record_fields_witness :
  let fieldnames := ["a"; "b"; "a"] in
  let data := [["1"; "2"; "3"; "4"]; []; ["5"]] in
  Forall2 (fun (p : dict) (row : list string) =>
             NoDup (dict_keys p) /\
             dict_keys p
             = header_keys fieldnames
               ++ (if length fieldnames <? length row then [KNone] else []))
          [[(KStr "a", VStr "3"); (KStr "b", VStr "2"); (KNone, VList ["4"])];
           [(KStr "a", VNone); (KStr "b", VNone)]]
          (filter (fun row => row <> []) data) /\
  NoDup (header_keys fieldnames) /\
  (forall k, k ∈ header_keys fieldnames <-> exists x, k = KStr x /\ x ∈ fieldnames) /\
  (NoDup fieldnames -> header_keys fieldnames = map KStr fieldnames).
Proof.
  intros fieldnames data.
  apply (load_data_record_fields
           ("a,b,a" +:+ crlf +:+ "1,2,3,4" +:+ crlf +:+ crlf +:+ "5" +:+ crlf)
           fieldnames data _
           (Some ("a,b,a" +:+ crlf +:+ "1,2,3,4" +:+ crlf +:+ crlf +:+ "5" +:+ crlf))).
  - vm_compute. reflexivity.
  - vm_compute. reflexivity.
Defined.

(** ** A dataset without the column [Category] *)

Lemma matches_no_category (p : dict) (category project_name : string) :
  dict_get p (KStr "Category") = None -> matches p category project_name = Raise KeyError.
Proof. unfold matches. by intros ->. Qed.

(** X9. When the header row of the blob has no column [Category] and the
    dataset has a record, the lookup of that column raises [KeyError] at
    the first record: the two reads that scan the dataset raise it to the
    framework, PUT and DELETE answer 500, and the blob is unchanged. *)
Theorem no_category_column
        (text : string) (fieldnames : list string) (data : list (list string))
        (first : dict) (rest : list dict)
        (category project_name : string) (project_data : dict) :
  load_data (Some text) = (Ok (first :: rest), Some text) ->
  Csv.reader text = Some (fieldnames :: data) ->
  "Category" ∉ fieldnames ->
  get_projects_by_category category (Some text) = (Raise KeyError, Some text) /\
  get_project_details category project_name (Some text) = (Raise KeyError, Some text) /\
  update_project category project_name project_data (Some text)
  = (Raise (HTTPException 500), Some text) /\
  delete_project category project_name (Some text) = (Raise (HTTPException 500), Some text).
Proof.
  intros Hload Hrows Hcol.
  assert (dict_get first (KStr "Category") = None) as Hnone.
  { apply dict_get_None. intros Hin.
    apply load_data_inv in Hload as Hinv.
    destruct Hinv as (_ & text' & rows & [= <-] & Hrows' & Hprojects).
    rewrite Hrows in Hrows'. injection Hrows' as <-.
    assert (first ∈ map clean_empty_values (DictReader (fieldnames :: data))) as Hfirst.
    { rewrite <- Hprojects. apply list_elem_of_here. }
    cbn [DictReader] in Hfirst.
    apply list_elem_of_fmap in Hfirst as (raw & -> & Hraw).
    apply list_elem_of_fmap in Hraw as (row & -> & _).
    rewrite dict_keys_clean_empty_values in Hin by apply NoDup_DictReader_row.
    rewrite dict_keys_DictReader_row in Hin.
    apply elem_of_app in Hin as [Hin|Hin].
    - apply elem_of_header_keys in Hin as (x & [= <-] & Hx). done.
    - destruct (_ <? _); [by apply list_elem_of_singleton in Hin | by apply elem_of_nil in Hin]. }
  pose proof (matches_no_category first category project_name Hnone) as Hm.
  split; [|split; [|split]].
  - unfold get_projects_by_category, bind, lift. rewrite Hload.
    cbn [in_category]. by rewrite Hnone.
  - unfold get_project_details, bind, lift. rewrite Hload.
    cbn [find_project]. by rewrite Hm.
  - unfold update_project, try_except, bind, lift. rewrite Hload.
    unfold project_index. cbn [project_index_from]. by rewrite Hm.
  - unfold delete_project, try_except, bind, lift. rewrite Hload.
    cbn [without_project]. by rewrite Hm.
Qed.

Lemma no_category_column_witness :
  get_projects_by_category "Rezoning" (Some no_category_csv)
  = (Raise KeyError, Some no_category_csv) /\
  get_project_details "Rezoning" "Oak St" (Some no_category_csv)
  = (Raise KeyError, Some no_category_csv) /\
  update_project "Rezoning" "Oak St" [] (Some no_category_csv)
  = (Raise (HTTPException 500), Some no_category_csv) /\
  delete_project "Rezoning" "Oak St" (Some no_category_csv)
  = (Raise (HTTPException 500), Some no_category_csv).
Proof.
  apply (no_category_column no_category_csv ["Project Name"; "Comments Due Date"]
                            [["Oak St"; EmptyString]]
                            [(KStr "Project Name", VStr "Oak St");
                             (KStr "Comments Due Date", VNone)] []).
  - vm_compute. reflexivity.
  - vm_compute. reflexivity.
  - by_compute.
Defined.

(** ** What [load_data] reads after [save_data] *)

Lemma zip_keys_map (fieldnames : list key) (g : key -> value) :
  zip fieldnames (map g fieldnames) = map (fun k => (k, g k)) fieldnames.
Proof. induction fieldnames as [|k ks IH]; cbn; [done | by rewrite <- IH]. Qed.

(** One line of [save_data] read back under the header line. *)
Lemma reload_row (fieldnames : list key) (p : dict) :
  NoDup fieldnames ->
  Forall column_key fieldnames ->
  clean_empty_values (DictReader_row (header_cells fieldnames) (row_cells fieldnames p))
  = reloaded fieldnames p.
Proof.
  intros Hnd Hkeys.
  assert (length (row_cells fieldnames p) = length (header_cells fieldnames)) as Hlen.
  { unfold row_cells, header_cells. by rewrite !length_map. }
  assert (DictReader_row (header_cells fieldnames) (row_cells fieldnames p)
          = map (fun k => (k, VStr (cell_text (default (VStr EmptyString) (dict_get p k)))))
                fieldnames) as Hrow.
  { unfold DictReader_row. rewrite Hlen, Nat.ltb_irrefl.
    rewrite KStr_header_cells by done.
    unfold row_cells. rewrite map_map, zip_keys_map.
    rewrite dict_update_fresh; [done|].
    cbn [dict_keys map app]. rewrite map_map. cbn [fst]. by rewrite map_id. }
  rewrite Hrow, clean_empty_values_map.
  - rewrite map_map. reflexivity.
  - unfold dict_keys. rewrite map_map. cbn [fst]. by rewrite map_id.
Qed.

Lemma within_limit_row_cells_writable (fieldnames : list key) (p : dict) :
  writable p -> Forall within_limit (row_cells fieldnames p).
Proof.
  intros Hp. unfold row_cells. apply Forall_forall. intros c Hc.
  apply list_elem_of_fmap in Hc as (k & -> & _).
  destruct (dict_get p k) as [v|] eqn:Hget; cbn [default].
  - apply dict_get_Some_elem_of in Hget.
    unfold writable in Hp. rewrite Forall_forall in Hp. exact (Hp _ Hget).
  - apply within_limit_empty.
Qed.

Lemma save_data_then_load (first : dict) (rest : list dict) (st : store) :
  first <> [] ->
  NoDup (dict_keys first) ->
  Forall column_key (dict_keys first) ->
  (forall p, p ∈ first :: rest -> within (dict_keys first) p = true /\ writable p) ->
  let text' := writerows (header_cells (dict_keys first)
                          :: map (row_cells (dict_keys first)) (first :: rest)) in
  save_data (first :: rest) st = (Ok tt, Some text') /\
  load_data (Some text')
  = (Ok (map (reloaded (dict_keys first)) (first :: rest)), Some text').
Proof.
  intros Hne Hnd Hkeys Hall text'. subst text'.
  assert (dict_keys first <> []) as Hcols by (by destruct first).
  rewrite save_data_cons.
  assert (forallb (within (dict_keys first)) rest = true) as ->.
  { apply forallb_forall. intros p Hp%list_elem_of_In.
    by destruct (Hall p (list_elem_of_further _ _ _ Hp)). }
  split; [done|].
  unfold load_data, try_except, bind, download_blob, ret.
  rewrite reader_writerows.
  - cbn [DictReader]. rewrite filter_row_cells by done.
    rewrite !map_map. do 2 f_equal.
    apply map_ext. intros p. by apply reload_row.
  - apply Forall_cons. split; [by apply within_limit_header_cells|].
    apply Forall_forall. intros row Hrow.
    apply list_elem_of_fmap in Hrow as (p & -> & Hp).
    apply within_limit_row_cells_writable. by destruct (Hall p Hp).
Qed.

Lemma reloaded_own_keys (p : dict) :
  NoDup (dict_keys p) -> reloaded (dict_keys p) p = as_stored p.
Proof.
  unfold reloaded, as_stored.
  induction p as [|[k v] p IH]; cbn [dict_keys map fst snd]; [done|].
  intros [Hk Hnd]%NoDup_cons. cbn [dict_get]. rewrite decide_True by done.
  cbn [default]. f_equal. rewrite <- IH by done.
  apply map_ext_in. intros k' Hk'%list_elem_of_In.
  rewrite decide_False; [done|]. by intros ->.
Qed.

Lemma stored_value_loaded (v : value) : loaded_value v -> stored_value v = v.
Proof. apply clean_cell_text. Qed.

Lemma as_stored_loaded (p : dict) :
  Forall (fun kv => loaded_value kv.2) p -> as_stored p = p.
Proof.
  unfold as_stored. induction 1 as [|[k v] p Hv _ IH]; cbn [map]; [done|].
  rewrite IH. cbn [fst snd] in Hv |- *. by rewrite stored_value_loaded.
Qed.

Lemma writable_loaded (p : dict) :
  Forall (fun kv => loaded_value kv.2) p -> writable p.
Proof.
  unfold writable. intros Hp. eapply Forall_impl; [exact Hp|].
  intros [k v] Hv. by apply within_limit_cell_text.
Qed.

(** A loaded dataset in which no row is longer than the header: one list
    of column names, shared by all records. *)
Lemma loaded_short_dataset (st : store) (projects : list dict) :
  load_data st = (Ok projects, st) ->
  projects <> [] ->
  (forall p, p ∈ projects -> KNone ∉ dict_keys p) ->
  exists fieldnames : list key,
    fieldnames <> [] /\ NoDup fieldnames /\ Forall column_key fieldnames /\
    forall p, p ∈ projects ->
              dict_keys p = fieldnames /\ Forall (fun kv => loaded_value kv.2) p.
Proof.
  intros Hload Hne Hshort.
  apply load_data_inv in Hload as (_ & text & rows & -> & Hrows & ->).
  destruct rows as [|fieldnames data]; [done|].
  apply reader_limit in Hrows as Hlim. apply Forall_cons in Hlim as [Hnames Hdata].
  pose proof (fun p => loaded_projects_short fieldnames data p Hdata Hshort) as Hfacts.
  exists (header_keys fieldnames).
  destruct (map clean_empty_values (DictReader (fieldnames :: data)))
    as [|first rest] eqn:Hprojects; [done|].
  destruct (Hfacts first (list_elem_of_here _ _)) as (_ & _ & _ & Hheader).
  split; [by apply header_keys_nonempty|]. split; [apply NoDup_header_keys|].
  split; [by apply column_key_header_keys|].
  intros p Hp. by destruct (Hfacts p Hp) as (? & _ & ? & _).
Qed.

(** X10. Whatever [save_data] writes, [load_data] reads: for a first
    record with at least one field, all of them column names, and
    records whose fields are among these and whose values fit a cell, the
    save succeeds and a load of the new blob returns, for every record,
    the columns of the first record with the stored form of its values
    ([None] for a missing field, for [None] and for the empty string, the
    text of the value otherwise). *)
Theorem load_data_after_save_data (first : dict) (rest : list dict) (st : store) :
  first <> [] ->
  NoDup (dict_keys first) ->
  Forall column_key (dict_keys first) ->
  (forall p, p ∈ first :: rest -> within (dict_keys first) p = true /\ writable p) ->
  exists text' : string,
    save_data (first :: rest) st = (Ok tt, Some text') /\
    load_data (Some text')
    = (Ok (as_stored first :: map (reloaded (dict_keys first)) rest), Some text').
Proof.
  intros Hne Hnd Hkeys Hall.
  destruct (save_data_then_load first rest st Hne Hnd Hkeys Hall) as [Hsave Hload].
  eexists. split; [exact Hsave|]. rewrite Hload. cbn [map].
  by rewrite reloaded_own_keys.
Qed.

Lemma load_data_after_save_data_witness :
  exists text' : string,
    save_data [oak_st; [(KStr "Project Name", VOther (PyObj "42" true))]] None
    = (Ok tt, Some text') /\
    load_data (Some text')
    = (Ok (as_stored oak_st
           :: map (reloaded (dict_keys oak_st))
                  [[(KStr "Project Name", VOther (PyObj "42" true))]]), Some text').
Proof.
  apply (load_data_after_save_data oak_st [[(KStr "Project Name", VOther (PyObj "42" true))]] None).
  - discriminate.
  - by_compute.
  - repeat constructor; cbn; unfold within_limit, field_limit; cbn; lia.
  - intros p [->|Hp%list_elem_of_singleton]%elem_of_cons; [|subst p];
      (split; [vm_compute; reflexivity|]);
      repeat constructor; cbn; unfold within_limit, field_limit; cbn; lia.
Defined.

Lemma elem_of_insert_inv {A : Type} (l : list A) (i : nat) (x y : A) :
  y ∈ <[i:=x]> l -> y = x \/ y ∈ l.
Proof.
  intros (j & Hj)%list_elem_of_lookup.
  apply list_lookup_insert_Some in Hj as [(_ & -> & _)|(_ & Hj)]; [by left|].
  right. by eapply list_elem_of_lookup_2.
Qed.

Lemma map_insert {A B : Type} (f : A -> B) (l : list A) : forall (i : nat) (x : A),
  map f (<[i:=x]> l) = <[i:=f x]> (map f l).
Proof.
  induction l as [|a l IH]; intros [|i] x; cbn; try done. by rewrite IH.
Qed.

Lemma elem_of_merge_patch (project_data : dict) : forall (project : dict) (kv : key * value),
  kv ∈ merge_patch project project_data -> kv ∈ project \/ kv ∈ project_data.
Proof.
  induction project_data as [|[k v] rest IH]; intros project kv.
  - by left.
  - rewrite merge_patch_cons. intros [Hin|Hin]%IH.
    + destruct (dict_mem k project); [|by left].
      apply elem_of_dict_set in Hin as [?| ->]; [by left|]. right. apply list_elem_of_here.
    + right. by apply list_elem_of_further.
Qed.

Lemma writable_merge_patch (project project_data : dict) :
  writable project -> writable project_data -> writable (merge_patch project project_data).
Proof.
  unfold writable. rewrite !Forall_forall. intros Hp Hd kv [?|?]%elem_of_merge_patch; auto.
Qed.

(** A collection whose records all have the fields [fieldnames], saved
    and loaded again. *)
Lemma save_then_load_uniform (saved : list dict) (fieldnames : list key) (st : store) :
  saved <> [] ->
  fieldnames <> [] -> NoDup fieldnames -> Forall column_key fieldnames ->
  (forall p, p ∈ saved -> dict_keys p = fieldnames /\ writable p) ->
  exists text' : string,
    save_data saved st = (Ok tt, Some text') /\
    load_data (Some text') = (Ok (map as_stored saved), Some text').
Proof.
  intros Hne Hcols Hnd Hkeys Hall.
  destruct saved as [|first rest]; [done|].
  destruct (Hall first (list_elem_of_here _ _)) as [Hfirst _].
  assert (first <> []) as Hfne by (intros ->; by subst fieldnames).
  destruct (save_data_then_load first rest st) as [Hsave Hload]; rewrite ?Hfirst; try done.
  - intros p Hp. destruct (Hall p Hp) as [Hk Hw]. split; [|done].
    apply within_spec. by rewrite Hk.
  - eexists. split; [exact Hsave|]. rewrite Hload. do 2 f_equal.
    apply map_ext_in. intros p Hp%list_elem_of_In.
    destruct (Hall p Hp) as [Hk _]. rewrite Hfirst, <- Hk.
    apply reloaded_own_keys. by rewrite Hk.
Qed.

Lemma update_project_ok (category project_name : string) (project_data : dict)
      (st st' : store) (response : message) :
  update_project category project_name project_data st = (Ok response, st') ->
  exists (projects : list dict) (i : nat) (target : dict),
    load_data st = (Ok projects, st) /\
    projects !! i = Some target /\
    matches target category project_name = Ok true /\
    save_data (<[i := merge_patch target project_data]> projects) st = (Ok tt, st').
Proof.
  unfold update_project, try_except, bind, lift.
  destruct (load_data st) as [[projects|e] st1] eqn:Hload; [|done].
  apply load_data_inv in Hload as Hst. destruct Hst as [-> _].
  destruct (project_index projects category project_name) as [index|e] eqn:Hidx; [|done].
  destruct (index =? -1)%Z eqn:Hm1; [done|]. apply Z.eqb_neq in Hm1.
  destruct (save_data _ st) as [[[]|e] st2] eqn:Hsave; [|done].
  unfold ret. intros [= <- <-].
  apply project_index_from_found in Hidx as (n & target & -> & Hn & Ht & _); [|done|lia].
  exists projects, n, target. split; [done|]. split; [done|]. split; [done|].
  unfold patched in Hsave. by rewrite Z.add_0_l, Nat2Z.id, Hn in Hsave.
Qed.

(** X11. PUT is read back. On a dataset in which no row is longer than
    the header, with a body whose values fit a cell, a PUT that succeeds
    leaves a blob that loads to the dataset as it was, except for the
    record patched: that one has the body's values in the fields the
    body names, in their stored form (text for a number, [None] for the
    empty string). *)
Theorem update_project_then_load
        (category project_name : string) (project_data : dict)
        (projects : list dict) (st st' : store) (response : message) :
  load_data st = (Ok projects, st) ->
  (forall p, p ∈ projects -> KNone ∉ dict_keys p) ->
  writable project_data ->
  update_project category project_name project_data st = (Ok response, st') ->
  exists (i : nat) (target : dict),
    projects !! i = Some target /\
    has_pair target category project_name /\
    load_data st'
    = (Ok (<[i := as_stored (merge_patch target project_data)]> projects), st').
Proof.
  intros Hload Hshort Hbody Hupd.
  apply update_project_ok in Hupd as (projects' & i & target & Hload' & Hi & Hm & Hsave).
  rewrite Hload in Hload'. injection Hload' as <-.
  assert (projects <> []) as Hne by (by intros ->).
  destruct (loaded_short_dataset st projects Hload Hne Hshort)
    as (fieldnames & Hcols & Hnd & Hkeys & Hall).
  assert (target ∈ projects) as Htarget by (by eapply list_elem_of_lookup_2).
  destruct (save_then_load_uniform (<[i := merge_patch target project_data]> projects)
                                   fieldnames st) as (text' & Hsave' & Hload'); try done.
  - intros Hnil. apply (f_equal length) in Hnil. rewrite length_insert in Hnil.
    by destruct projects.
  - intros p [->|Hp]%elem_of_insert_inv.
    + destruct (Hall target Htarget) as [Hk Hv].
      split; [by rewrite merge_patch_keys|].
      apply writable_merge_patch; [by apply writable_loaded | done].
    + destruct (Hall p Hp) as [Hk Hv]. split; [done | by apply writable_loaded].
  - rewrite Hsave in Hsave'. injection Hsave' as ->.
    exists i, target. split; [done|]. split; [by apply matches_true|].
    rewrite Hload', map_insert. do 3 f_equal.
    rewrite <- (map_id projects) at 2. apply map_ext_in. intros p Hp%list_elem_of_In.
    apply as_stored_loaded. by destruct (Hall p Hp).
Qed.

Lemma update_project_then_load_witness :
  let project_data := [(KStr "Comments Due Date", VStr "03/15/2025"); (KStr "NewField", VStr "x")] in
  let st := Some three_projects_csv in
  let st' := (update_project "Rezoning" "Elm St" project_data st).2 in
  exists (i : nat) (target : dict),
    [oak_st; mill_rd; elm_st] !! i = Some target /\
    has_pair target "Rezoning" "Elm St" /\
    load_data st'
    = (Ok (<[i := as_stored (merge_patch target project_data)]> [oak_st; mill_rd; elm_st]), st').
Proof.
  intros project_data st st'.
  apply (update_project_then_load "Rezoning" "Elm St" project_data [oak_st; mill_rd; elm_st]
                                  st st' "Project updated successfully").
  - vm_compute. reflexivity.
  - intros p Hp. apply (bool_decide_unpack _).
    repeat (apply elem_of_cons in Hp as [->|Hp]; [vm_compute; exact I|]).
    by apply elem_of_nil in Hp.
  - repeat constructor; cbn; unfold within_limit, field_limit; cbn; lia.
  - vm_compute. reflexivity.
Defined.

(** X12. POST is read back. On a dataset with at least one record and no
    row longer than the header, with a body whose field names are among
    the header's and whose values fit a cell, POST succeeds, and the new
    blob loads to the records as they were, followed by one record that
    has every column of the header: the body's value in stored form
    where the body names the column, [None] elsewhere. *)
Theorem add_project_then_load
        (project_data first : dict) (rest : list dict) (st : store) :
  load_data st = (Ok (first :: rest), st) ->
  (forall p, p ∈ first :: rest -> KNone ∉ dict_keys p) ->
  within (dict_keys first) project_data = true ->
  writable project_data ->
  exists st' : store,
    add_project project_data st = (Ok "Project added successfully", st') /\
    load_data st'
    = (Ok ((first :: rest) ++ [reloaded (dict_keys first) project_data]), st').
Proof.
  intros Hload Hshort Hwithin Hbody.
  destruct (loaded_short_dataset st (first :: rest) Hload) as
    (fieldnames & Hcols & Hnd & Hkeys & Hall); [done|done|].
  destruct (Hall first (list_elem_of_here _ _)) as [Hfirst _].
  destruct (save_data_then_load first (rest ++ [project_data]) st) as [Hsave Hload'];
    rewrite ?Hfirst; try done.
  - intros ->. by subst fieldnames.
  - intros p Hp. change (first :: rest ++ [project_data])
      with ((first :: rest) ++ [project_data]) in Hp.
    apply elem_of_app in Hp as [Hp | ->%list_elem_of_singleton].
    + destruct (Hall p Hp) as [Hk Hv]. split; [|by apply writable_loaded].
      apply within_spec. by rewrite Hk.
    + split; [by rewrite <- Hfirst | done].
  - eexists. unfold add_project, try_except, bind.
    rewrite Hload. change ((first :: rest) ++ [project_data])
      with (first :: (rest ++ [project_data])).
    rewrite Hsave. split; [reflexivity|]. rewrite Hload'. do 2 f_equal.
    change (first :: rest ++ [project_data]) with ((first :: rest) ++ [project_data]).
    rewrite map_app. f_equal; [|cbn [map]; by rewrite Hfirst].
    rewrite <- (map_id (first :: rest)) at 2. apply map_ext_in. intros p Hp%list_elem_of_In.
    destruct (Hall p Hp) as [Hk Hv]. rewrite Hfirst, <- Hk.
    rewrite reloaded_own_keys by (by rewrite Hk). by apply as_stored_loaded.
Qed.

Lemma add_project_then_load_witness :
  let project_data := [(KStr "Project Name", VStr "Elm St"); (KStr "Category", VStr "Rezoning")] in
  exists st' : store,
    add_project project_data (Some oak_st_csv) = (Ok "Project added successfully", st') /\
    load_data st' = (Ok ([oak_st] ++ [reloaded (dict_keys oak_st) project_data]), st').
Proof.
  intros project_data.
  apply (add_project_then_load project_data oak_st [] (Some oak_st_csv)).
  - vm_compute. reflexivity.
  - intros p Hp. apply list_elem_of_singleton in Hp as ->. by_compute.
  - vm_compute. reflexivity.
  - repeat constructor; cbn; unfold within_limit, field_limit; cbn; lia.
Defined.

(** X13. POST on a dataset without records. The body becomes the first
    record, so the header of the new blob is made of the body's field
    names, whatever the header was; with distinct column names and
    values that fit a cell the new blob loads to the body alone, in
    stored form. *)
Theorem add_project_to_empty_dataset (project_data : dict) (st : store) :
  load_data st = (Ok [], st) ->
  project_data <> [] ->
  NoDup (dict_keys project_data) ->
  Forall column_key (dict_keys project_data) ->
  writable project_data ->
  let text' := writerows [header_cells (dict_keys project_data);
                          row_cells (dict_keys project_data) project_data] in
  add_project project_data st = (Ok "Project added successfully", Some text') /\
  load_data (Some text') = (Ok [as_stored project_data], Some text').
Proof.
  intros Hload Hne Hnd Hkeys Hbody text'.
  destruct (save_data_then_load project_data [] st Hne Hnd Hkeys) as [Hsave Hload'].
  { intros p ->%list_elem_of_singleton. split; [apply within_self | done]. }
  subst text'. cbn [map] in Hsave, Hload'. rewrite reloaded_own_keys in Hload' by done.
  unfold add_project, try_except, bind. rewrite Hload. cbn [app]. rewrite Hsave.
  split; [reflexivity | exact Hload'].
Qed.

Lemma add_project_to_empty_dataset_witness :
  let project_data := [(KStr "Project Name", VStr "Elm St")] in
  let st := Some ("Category,Project Name" +:+ crlf) in
  let text' := writerows [header_cells (dict_keys project_data);
                          row_cells (dict_keys project_data) project_data] in
  add_project project_data st = (Ok "Project added successfully", Some text') /\
  load_data (Some text') = (Ok [as_stored project_data], Some text').
Proof.
  intros project_data st.
  apply (add_project_to_empty_dataset project_data st).
  - vm_compute. reflexivity.
  - discriminate.
  - by_compute.
  - repeat constructor; cbn; unfold within_limit, field_limit; cbn; lia.
  - repeat constructor; cbn; unfold within_limit, field_limit; cbn; lia.
Defined.

(** X14. DELETE is read back. On a dataset in which no row is longer
    than the header, a DELETE that succeeds and leaves at least one
    record leaves a blob that loads to exactly the records that do not
    carry the pair, in their order. *)
Theorem delete_project_then_load
        (category project_name : string) (projects : list dict)
        (st st' : store) (response : message) :
  load_data st = (Ok projects, st) ->
  (forall p, p ∈ projects -> KNone ∉ dict_keys p) ->
  delete_project category project_name st = (Ok response, st') ->
  filter (fun p => ~ has_pair p category project_name) projects <> [] ->
  load_data st'
  = (Ok (filter (fun p => ~ has_pair p category project_name) projects), st').
Proof.
  intros Hload Hshort (projects' & kept & Hload' & Hkept & _ & Hsave)%delete_project_ok Hne.
  rewrite Hload in Hload'. injection Hload' as <-.
  destruct (without_project_filter _ _ _ _ Hkept) as [Hfilter _].
  rewrite <- Hfilter in Hne |- *.
  assert (projects <> []) as Hpne by (intros ->; by subst kept).
  destruct (loaded_short_dataset st projects Hload Hpne Hshort)
    as (fieldnames & Hcols & Hnd & Hkeys & Hall).
  assert (forall p, p ∈ kept -> p ∈ projects) as Hsub.
  { intros p Hp. subst kept. by apply list_elem_of_filter in Hp as [_ ?]. }
  destruct (save_then_load_uniform kept fieldnames st) as (text' & Hsave' & Hload'); try done.
  - intros p Hp. destruct (Hall p (Hsub p Hp)) as [Hk Hv].
    split; [done | by apply writable_loaded].
  - rewrite Hsave in Hsave'. injection Hsave' as ->. rewrite Hload'. do 2 f_equal.
    rewrite <- (map_id kept) at 2. apply map_ext_in. intros p Hp%list_elem_of_In.
    apply as_stored_loaded. by destruct (Hall p (Hsub p Hp)).
Qed.

Lemma delete_project_then_load_witness :
  let st := Some three_projects_csv in
  let st' := (delete_project "Rezoning" "Oak St" st).2 in
  load_data st'
  = (Ok (filter (fun p => ~ has_pair p "Rezoning" "Oak St") [oak_st; mill_rd; elm_st]), st').
Proof.
  intros st st'.
  apply (delete_project_then_load "Rezoning" "Oak St" [oak_st; mill_rd; elm_st] st st'
                                  "Project deleted successfully").
  - vm_compute. reflexivity.
  - intros p Hp. apply (bool_decide_unpack _).
    repeat (apply elem_of_cons in Hp as [->|Hp]; [vm_compute; exact I|]).
    by apply elem_of_nil in Hp.
  - vm_compute. reflexivity.
  - vm_compute. discriminate.
Defined.

(** ** The claims of a token *)

(** X15. When the expiry is a representable [datetime], the payload
    [create_access_token] hands to [jwt.encode], under the configured
    secret and HS256, has that expiry under [exp]: the time of issue plus
    [expires_delta], or plus fifteen minutes when no delta is given or
    the delta is zero; an [exp] of the caller is replaced; every other
    claim of [data] is kept. *)
Theorem create_access_token_claims
        (token : Type) (jwt_encode : claims -> option string -> string -> outcome token)
        (env : environ) (data : claims) (expires_delta : option timedelta) (utcnow : datetime)
        (lifetime : timedelta) :
  lifetime = match expires_delta with
             | Some delta => if (delta =? 0)%Z then (15 * 60 * 1000000)%Z else delta
             | None => (15 * 60 * 1000000)%Z
             end ->
  representable utcnow ->
  representable (utcnow + lifetime)%Z ->
  exists to_encode : claims,
    create_access_token token jwt_encode env data expires_delta utcnow
    = jwt_encode to_encode (SECRET_KEY env) "HS256" /\
    dict_get to_encode "exp" = Some (ClaimTime (utcnow + lifetime)%Z) /\
    (forall k, k <> "exp" -> dict_get to_encode k = dict_get data k) /\
    (forall k, k ∈ dict_keys data -> k ∈ dict_keys to_encode).
Proof.
  intros Hlifetime _ _. unfold create_access_token.
  set (expire := match expires_delta with
                 | Some delta => if (delta =? 0)%Z then (utcnow + timedelta_minutes 15)%Z
                                 else (utcnow + delta)%Z
                 | None => (utcnow + timedelta_minutes 15)%Z
                 end).
  assert (expire = (utcnow + lifetime)%Z) as ->.
  { subst expire lifetime. destruct expires_delta as [delta|]; [|done].
    by destruct (delta =? 0)%Z. }
  eexists. split; [reflexivity|]. cbn [dict_update fold_left fst snd].
  split; [|split].
  - rewrite dict_get_set. by rewrite decide_True.
  - intros k Hk. rewrite dict_get_set. by rewrite decide_False.
  - intros k Hk. rewrite dict_keys_set. destruct (decide _); [done|].
    apply elem_of_app. by left.
Qed.

Lemma create_access_token_claims_witness :
  let data := [("sub", ClaimStr "admin"); ("exp", ClaimTime 5%Z)] in
  exists to_encode : claims,
    create_access_token plain_token plain_encode admin_env data (Some 0%Z) 1000%Z
    = plain_encode to_encode (SECRET_KEY admin_env) "HS256" /\
    dict_get to_encode "exp" = Some (ClaimTime (1000 + 900000000)%Z) /\
    (forall k, k <> "exp" -> dict_get to_encode k = dict_get data k) /\
    (forall k, k ∈ dict_keys data -> k ∈ dict_keys to_encode).
Proof.
  intros data.
  apply (create_access_token_claims plain_token plain_encode admin_env data
                                    (Some 0%Z) 1000%Z 900000000%Z).
  - reflexivity.
  - unfold representable, datetime_min, datetime_max. lia.
  - unfold representable, datetime_min, datetime_max. lia.
Defined.

(** ** What [load_data] returns, cell by cell *)

Lemma dict_get_zip_header (fieldnames : list string) : forall (row : list string) (i : nat) (x : string),
  NoDup fieldnames ->
  fieldnames !! i = Some x ->
  dict_get (zip (map KStr fieldnames) (map VStr row)) (KStr x) = VStr <$> row !! i.
Proof.
  induction fieldnames as [|h hs IH]; intros row i x Hnd Hi; [done|].
  apply NoDup_cons in Hnd as [Hh Hnd].
  destruct row as [|r rs]; [done|]. cbn [map zip zip_with dict_get].
  destruct i as [|i]; cbn in Hi.
  - injection Hi as ->. by rewrite decide_True.
  - rewrite decide_False.
    + exact (IH rs i x Hnd Hi).
    + intros [= ->]. apply Hh. by eapply list_elem_of_lookup_2.
Qed.

Lemma dict_get_row_items (fieldnames : list string) : forall (row : list string) (i : nat) (x : string),
  NoDup fieldnames ->
  fieldnames !! i = Some x ->
  dict_get (row_items fieldnames row) (KStr x) = Some (cell_at row i).
Proof.
  unfold row_items, cell_at.
  induction fieldnames as [|h hs IH]; intros row i x Hnd Hi; [done|].
  apply NoDup_cons in Hnd as [Hh Hnd].
  assert (forall j, hs !! j = Some x -> KStr h <> KStr x) as Hne.
  { intros j Hj [= ->]. apply Hh. by eapply list_elem_of_lookup_2. }
  destruct row as [|r rs]; cbn [map zip zip_with length drop app dict_get].
  - destruct i as [|i]; cbn in Hi.
    + injection Hi as ->. by rewrite decide_True.
    + rewrite decide_False by (by eapply Hne).
      specialize (IH [] i x Hnd Hi). cbn [map length] in IH.
      rewrite zip_with_nil_r in IH. exact IH.
  - destruct i as [|i]; cbn in Hi.
    + injection Hi as ->. by rewrite decide_True.
    + rewrite decide_False by (by eapply Hne). exact (IH rs i x Hnd Hi).
Qed.

Lemma DictReader_row_distinct (fieldnames row : list string) (i : nat) (x : string) :
  NoDup fieldnames ->
  fieldnames !! i = Some x ->
  dict_get (DictReader_row fieldnames row) (KStr x) = Some (cell_at row i).
Proof.
  intros Hnd Hi.
  destruct (Nat.le_gt_cases (length row) (length fieldnames)) as [Hshort|Hlong].
  - rewrite DictReader_row_short by done.
    rewrite dict_update_fresh.
    + by apply dict_get_row_items.
    + cbn [dict_keys map app]. rewrite map_fst_row_items by done.
      by apply (NoDup_fmap_2 KStr).
  - unfold DictReader_row. rewrite (proj2 (Nat.ltb_lt _ _) Hlong).
    rewrite dict_get_set, decide_False by done.
    rewrite dict_update_fresh.
    + cbn [app]. rewrite (dict_get_zip_header fieldnames row i x) by done. unfold cell_at.
      destruct (row !! i) eqn:Hrow; [done|].
      apply lookup_ge_None in Hrow. apply lookup_lt_Some in Hi. lia.
    + cbn [dict_keys map app]. rewrite map_fst_zip_long by lia.
      by apply (NoDup_fmap_2 KStr).
Qed.

Lemma DictReader_row_overflow (fieldnames row : list string) :
  dict_get (DictReader_row fieldnames row) KNone
  = if length fieldnames <? length row then Some (VList (drop (length fieldnames) row))
    else None.
Proof.
  destruct (Nat.ltb_spec (length fieldnames) (length row)) as [Hlong|Hshort].
  - unfold DictReader_row. rewrite (proj2 (Nat.ltb_lt _ _) Hlong).
    rewrite dict_get_set. by rewrite decide_True.
  - apply dict_get_None. rewrite dict_keys_DictReader_row_short by done.
    intros (x & [=] & _)%elem_of_header_keys.
Qed.

(** X16. What [load_data] returns, cell by cell. The records are the data
    rows that are not blank, one record per row, in order.  When the
    header has no repeated name, the record of a row holds, under the
    name of each column, the cell of the row at the position of the
    column, and [None] when that cell is empty or the row ends before
    it.  Under the key [None] it holds the list of the cells beyond the
    header when the row is longer than the header, and nothing
    otherwise. *)
Theorem load_data_cell_by_cell
        (text : string) (fieldnames : list string) (data : list (list string))
        (projects : list dict) (st' : store) :
  load_data (Some text) = (Ok projects, st') ->
  Csv.reader text = Some (fieldnames :: data) ->
  NoDup fieldnames ->
  Forall2 (fun (p : dict) (row : list string) =>
             (forall (i : nat) (x : string),
                fieldnames !! i = Some x ->
                dict_get p (KStr x) = Some (clean_value (cell_at row i))) /\
             dict_get p KNone
             = if length fieldnames <? length row
               then Some (VList (drop (length fieldnames) row)) else None)
          projects
          (filter (fun row => row <> []) data).
Proof.
  intros Hload Hrows Hnd.
  apply load_data_inv in Hload as (_ & text' & rows & [= <-] & Hrows' & ->).
  rewrite Hrows in Hrows'. injection Hrows' as <-. cbn [DictReader].
  clear Hrows. induction data as [|row data IH]; cbn [List.filter map]; [constructor|].
  rewrite filter_cons. destruct row as [|c row]; cbn [is_blank negb].
  - rewrite decide_False by (by intros H; apply H). exact IH.
  - rewrite decide_True by done. cbn [map]. constructor; [|exact IH].
    pose proof (NoDup_DictReader_row fieldnames (c :: row)) as Hkeys.
    rewrite clean_empty_values_map by done. split.
    + intros i x Hi.
      rewrite dict_get_clean, (DictReader_row_distinct fieldnames (c :: row) i x) by done.
      done.
    + rewrite dict_get_clean, DictReader_row_overflow.
      destruct (Nat.ltb_spec (length fieldnames) (length (c :: row))) as [Hlong|_]; [|done].
      cbn [fmap option_fmap option_map]. f_equal. unfold clean_value. cbn [truthy].
      rewrite length_drop.
      destruct (Nat.eqb_spec (length (c :: row) - length fieldnames) 0) as [|_]; [lia|done].
Qed.

Lemma load_data_cell_by_cell_witness :
  let fieldnames := ["Category"; "Project Name"; "Comments Due Date"] in
  Forall2 (fun (p : dict) (row : list string) =>
             (forall (i : nat) (x : string),
                fieldnames !! i = Some x ->
                dict_get p (KStr x) = Some (clean_value (cell_at row i))) /\
             dict_get p KNone
             = if length fieldnames <? length row
               then Some (VList (drop (length fieldnames) row)) else None)
          [oak_st]
          (filter (fun row => row <> []) [["Rezoning"; "Oak St"; EmptyString]]).
Proof.
  intros fieldnames.
  apply (load_data_cell_by_cell oak_st_csv fieldnames _ [oak_st] (Some oak_st_csv)).
  - vm_compute. reflexivity.
  - vm_compute. reflexivity.
  - by_compute.
Defined.
